(** * Sponge-ify Me: the view controller of [App.tsx]

    A shallow embedding of the React component [App] (src/App.tsx): its six
    pieces of UI state, the three event handlers that change them
    ([handleFileChange], [handleTakePhoto], [handleGenerateClick]) and the
    camera effect ([useEffect] on [isCameraOpen]).

    Handlers are written in a small command monad [Prog]: a handler is a
    tree of state-setter calls that may suspend on one of the two imported
    asynchronous functions ([fileToBase64], [editImage]) and may throw.
    The tree is run either in one go against fixed answers of the host
    ([exec]), or step by step inside an event loop ([World], [step]) where
    other events interleave with a suspended handler. *)

From Stdlib Require Import String Ascii List Bool ZArith NArith Lia.
From Stdlib Require Import DecimalString DecimalPos DecimalZ.
From ExtLib Require Import Structures.Monad Structures.MonadExc.
Import ListNotations.
Import MonadNotation.
Local Open Scope string_scope.
Local Open Scope monad_scope.

(** ** JavaScript strings

    Strings are sequences of characters; the only operations the component
    uses are [startsWith], [split] on a one-character separator, array
    indexing of the result, and concatenation (template literals). *)

(** [s.startsWith(p)] *)
Definition startsWith (s p : string) : bool := String.prefix p s.

(** [s.split(sep)] for a one-character separator: the segments between
    the separators, in order; never empty ([''.split(',')] is [['']]). *)
Fixpoint split (sep : ascii) (s : string) : list string :=
  match s with
  | EmptyString => [EmptyString]
  | String c rest =>
      if Ascii.eqb c sep then EmptyString :: split sep rest
      else match split sep rest with
           | seg :: more => String c seg :: more
           | [] => [String c EmptyString]
           end
  end.

(** [a[i]]: [None] is JavaScript's [undefined]. *)
Definition at_index {A} (a : list A) (i : nat) : option A := nth_error a i.

(** Truthiness of a [string | null | undefined] value: only a non-empty
    string is truthy. *)
Definition truthy (v : option string) : bool :=
  match v with
  | Some s => negb (String.eqb s "")
  | None => false
  end.

(** [`${n}`] for an integral number such as [Date.now()]. *)
Definition number_toString (n : Z) : string := NilZero.string_of_int (Z.to_int n).

(** [`${v}`] for a [string | undefined] value. *)
Definition template_of (v : option string) : string :=
  match v with
  | Some s => s
  | None => "undefined"
  end.

(** [s] contains the character [c]. *)
Fixpoint contains (c : ascii) (s : string) : bool :=
  match s with
  | EmptyString => false
  | String c' rest => Ascii.eqb c' c || contains c rest
  end.

(** The base64 alphabet: letters, digits, [+], [/] and the padding [=]. *)
Definition base64_char (c : ascii) : bool :=
  let n := nat_of_ascii c in
  ((65 <=? n) && (n <=? 90) || (97 <=? n) && (n <=? 122) || (48 <=? n) && (n <=? 57)
   || (n =? 43) || (n =? 47) || (n =? 61))%nat.

(** [s] is base64 text, the body of a base64 data URL. *)
Fixpoint is_base64 (s : string) : bool :=
  match s with
  | EmptyString => true
  | String c rest => base64_char c && is_base64 rest
  end.

(** ** Data model *)

(** The part of a DOM [File] the component reads. *)
Module File.
Record t : Type := mk { type : string; name : string }.
End File.

(** [interface OriginalImage].  The field [base64] is declared [string],
    but it is filled with [url.split(',')[1]], which is [undefined] when
    the URL has no comma: [None] stands for that [undefined]. *)
Record OriginalImage : Type := mkOriginalImage {
  base64 : option string;
  mimeType : string;
  name : string
}.

(** The six [useState] cells of [App]. *)
Record UIState : Type := mkUIState {
  originalImage : option OriginalImage;
  editedImage : option string;
  prompt : string;
  isLoading : bool;
  error : option string;
  isCameraOpen : bool
}.

Definition initial_prompt : string :=
  "Convert the face in the image into a SpongeBob-style face; however, the face should stay human. The face should look realistic and have subtle changes, like a slightly yellow face with a few holes, goofy teeth, bigger eyes, and a smile, while also keeping the background.".

(** The arguments of the [useState] calls. *)
Definition initialState : UIState :=
  {| originalImage := None;
     editedImage := None;
     prompt := initial_prompt;
     isLoading := false;
     error := None;
     isCameraOpen := false |}.

(** A state-setter call [setX(v)]. *)
Inductive Action : Type :=
| SetOriginalImage (v : option OriginalImage)
| SetEditedImage (v : option string)
| SetPrompt (v : string)
| SetIsLoading (v : bool)
| SetError (v : option string)
| SetIsCameraOpen (v : bool).

Definition apply_action (a : Action) (s : UIState) : UIState :=
  match a with
  | SetOriginalImage v =>
      {| originalImage := v; editedImage := editedImage s; prompt := prompt s;
         isLoading := isLoading s; error := error s; isCameraOpen := isCameraOpen s |}
  | SetEditedImage v =>
      {| originalImage := originalImage s; editedImage := v; prompt := prompt s;
         isLoading := isLoading s; error := error s; isCameraOpen := isCameraOpen s |}
  | SetPrompt v =>
      {| originalImage := originalImage s; editedImage := editedImage s; prompt := v;
         isLoading := isLoading s; error := error s; isCameraOpen := isCameraOpen s |}
  | SetIsLoading v =>
      {| originalImage := originalImage s; editedImage := editedImage s; prompt := prompt s;
         isLoading := v; error := error s; isCameraOpen := isCameraOpen s |}
  | SetError v =>
      {| originalImage := originalImage s; editedImage := editedImage s; prompt := prompt s;
         isLoading := isLoading s; error := v; isCameraOpen := isCameraOpen s |}
  | SetIsCameraOpen v =>
      {| originalImage := originalImage s; editedImage := editedImage s; prompt := prompt s;
         isLoading := isLoading s; error := error s; isCameraOpen := v |}
  end.

(** ** Promises and exceptions *)

(** A value that was thrown or that a promise was rejected with, as far as
    a [catch (err)] block reading [err.message] can tell them apart. *)
Inductive Thrown : Type :=
| ErrorObj (message : string)   (* an [Error], or any object with a string [message] *)
| NoMessage                     (* a non-nullish value without [message] *)
| Nullish.                      (* [null] or [undefined]: reading [.message] throws *)

(** How a promise settles. *)
Inductive Settled (A : Type) : Type :=
| Resolved (v : A)
| Rejected (e : Thrown).
Arguments Resolved {A} v.
Arguments Rejected {A} e.

(** ** Handler programs *)

(** The body of a handler: it returns, throws, calls a setter and goes on,
    or suspends on one of the imported asynchronous functions and goes on
    with the way the promise settled. *)
Inductive Prog (A : Type) : Type :=
| Ret (a : A)
| Throw (e : Thrown)
| Act (a : Action) (k : Prog A)
| AwaitRead (file : File.t) (k : Settled string -> Prog A)
| AwaitEdit (img : option string) (mime instructions : string)
            (k : Settled (option string) -> Prog A).
Arguments Ret {A} a.
Arguments Throw {A} e.
Arguments Act {A} a k.
Arguments AwaitRead {A} file k.
Arguments AwaitEdit {A} img mime instructions k.

(** Sequencing: statement [p] followed by the rest [f]. *)
Fixpoint bind_prog {A B} (p : Prog A) (f : A -> Prog B) : Prog B :=
  match p with
  | Ret a => f a
  | Throw e => Throw e
  | Act a k => Act a (bind_prog k f)
  | AwaitRead file k => AwaitRead file (fun o => bind_prog (k o) f)
  | AwaitEdit img mime ins k => AwaitEdit img mime ins (fun o => bind_prog (k o) f)
  end.

(** [try { body } catch (err) { handler err }] *)
Fixpoint try_catch {A} (body : Prog A) (handler : Thrown -> Prog A) : Prog A :=
  match body with
  | Ret a => Ret a
  | Throw e => handler e
  | Act a k => Act a (try_catch k handler)
  | AwaitRead file k => AwaitRead file (fun o => try_catch (k o) handler)
  | AwaitEdit img mime ins k => AwaitEdit img mime ins (fun o => try_catch (k o) handler)
  end.

(** [try { body } finally { fin }]: [fin] runs on every way out of [body],
    and the outcome of [body] stands unless [fin] itself throws. *)
Fixpoint finally {A} (body : Prog A) (fin : Prog unit) : Prog A :=
  match body with
  | Ret a => bind_prog fin (fun _ => Ret a)
  | Throw e => bind_prog fin (fun _ => Throw e)
  | Act a k => Act a (finally k fin)
  | AwaitRead file k => AwaitRead file (fun o => finally (k o) fin)
  | AwaitEdit img mime ins k => AwaitEdit img mime ins (fun o => finally (k o) fin)
  end.

#[export] Instance Monad_Prog : Monad Prog :=
  {| ret := @Ret; bind := @bind_prog |}.

#[export] Instance MonadExc_Prog : MonadExc Thrown Prog :=
  {| raise := @Throw; catch := @try_catch |}.

(** [await promise]: the resolved value, or the rejection thrown here. *)
Definition await {A} (o : Settled A) : Prog A :=
  match o with
  | Resolved v => Ret v
  | Rejected e => Throw e
  end.

Definition setOriginalImage (v : option OriginalImage) : Prog unit := Act (SetOriginalImage v) (Ret tt).
Definition setEditedImage (v : option string) : Prog unit := Act (SetEditedImage v) (Ret tt).
Definition setPrompt (v : string) : Prog unit := Act (SetPrompt v) (Ret tt).
Definition setIsLoading (v : bool) : Prog unit := Act (SetIsLoading v) (Ret tt).
Definition setError (v : option string) : Prog unit := Act (SetError v) (Ret tt).
Definition setIsCameraOpen (v : bool) : Prog unit := Act (SetIsCameraOpen v) (Ret tt).

(** [await fileToBase64(file)] (imported from ./utils/fileUtils). *)
Definition fileToBase64 (file : File.t) : Prog string := AwaitRead file await.

(** [await editImage(base64, mimeType, prompt)] (imported from
    ./services/geminiService). *)
Definition editImage (img : option string) (mime instructions : string) : Prog (option string) :=
  AwaitEdit img mime instructions await.

(** The text of the engine's [TypeError] (V8's wording; nothing below
    depends on it). *)
Definition type_error_message : string :=
  "Cannot read properties of undefined (reading 'message')".

(** [err.message] in a [catch] block: reading it off a nullish [err] throws
    a [TypeError]. *)
Definition message_of (err : Thrown) : Prog (option string) :=
  match err with
  | ErrorObj m => Ret (Some m)
  | NoMessage => Ret None
  | Nullish => Throw (ErrorObj type_error_message)
  end.

(** ** The handlers of [App] *)

Definition validation_message : string := "Please upload a valid image file (PNG, JPG, etc.).".
Definition read_failure_message : string := "Failed to read the image file.".
Definition guard_message : string := "Please upload an image and provide a prompt.".
Definition camera_message : string :=
  "Could not access the camera. Please check permissions and try again.".
Definition png_prefix : string := "data:image/png;base64,".
Definition no_image_message : string :=
  "The model did not return an image. Please try a different prompt.".
Definition error_prefix : string := "An error occurred: ".

(** [event.target.files?.[0]] *)
Definition first_file (files : option (list File.t)) : option File.t :=
  match files with
  | Some fs => at_index fs 0
  | None => None
  end.

(** [handleFileChange] (lines 48-69).  [files] is [event.target.files],
    which is [null] or a list of files. *)
Definition handleFileChange (files : option (list File.t)) : Prog unit :=
  match first_file files with
  | Some file =>
      if negb (startsWith (File.type file) "image/") then
        setError (Some validation_message)
      else
        setError None ;;
        setEditedImage None ;;
        catch
          (url <- fileToBase64 file ;;
           setOriginalImage
             (Some {| base64 := at_index (split "," url) 1;
                      mimeType := File.type file;
                      name := File.name file |}))
          (fun _ =>
             setError (Some read_failure_message) ;;
             setOriginalImage None)
  | None => ret tt
  end.

(** The elements behind [videoRef] and [canvasRef], as far as
    [handleTakePhoto] uses them.  [toDataURL canvas type w h] is what the
    host's [canvas.toDataURL(type)] answers once the canvas was resized to
    [w] by [h] and the current video frame was drawn on it;
    [getContext2d] tells whether [canvas.getContext('2d')] is non-null. *)
Record HTMLVideoElement : Type := mkVideo { videoWidth : N; videoHeight : N }.
Record HTMLCanvasElement : Type := mkCanvas {
  getContext2d : bool;
  toDataURL : string -> N -> N -> string
}.

(** [handleTakePhoto] (lines 71-93).  [video] and [canvas] are
    [videoRef.current] and [canvasRef.current], [now] is [Date.now()]. *)
Definition handleTakePhoto (video : option HTMLVideoElement)
    (canvas : option HTMLCanvasElement) (now : Z) : Prog unit :=
  match video, canvas with
  | Some video, Some canvas =>
      if getContext2d canvas then
        let dataUrl := toDataURL canvas "image/jpeg" (videoWidth video) (videoHeight video) in
        let b64 := at_index (split "," dataUrl) 1 in
        setOriginalImage
          (Some {| base64 := b64;
                   mimeType := "image/jpeg";
                   name := "webcam-photo-" ++ number_toString now ++ ".jpg" |}) ;;
        setEditedImage None ;;
        setError None ;;
        setIsCameraOpen false
      else ret tt
  | _, _ => ret tt
  end.

(** [handleGenerateClick] (lines 95-115).  The callback closes over
    [originalImage] and [prompt] of the render it was created in: [s] is
    that rendered state.  The guard [!originalImage || !prompt] fails
    exactly when the image is non-null and the prompt is not the empty
    string. *)
Definition handleGenerateClick (s : UIState) : Prog unit :=
  match originalImage s, String.eqb (prompt s) "" with
  | Some img, false =>
      setIsLoading true ;;
      setError None ;;
      setEditedImage None ;;
      finally
        (catch
           (generatedImageBase64 <- editImage (base64 img) (mimeType img) (prompt s) ;;
            if truthy generatedImageBase64 then
              setEditedImage (Some (png_prefix ++ template_of generatedImageBase64))
            else
              raise (ErrorObj no_image_message))
           (fun err =>
              m <- message_of err ;;
              setError (Some (error_prefix ++ template_of m))))
        (setIsLoading false)
  | _, _ =>
      setError (Some guard_message)
  end.

(** ** Running a handler to completion *)

(** What a run did, in program order. *)
Inductive TraceItem : Type :=
| Did (a : Action)
| CalledFileToBase64 (file : File.t)
| CalledEditImage (img : option string) (mime instructions : string).

Inductive Completion (A : Type) : Type :=
| Returned (a : A)
| Threw (e : Thrown).
Arguments Returned {A} a.
Arguments Threw {A} e.

Record Run (A : Type) : Type := mkRun {
  completion : Completion A;
  final : UIState;
  trace : list TraceItem
}.
Arguments mkRun {A}.
Arguments completion {A}.
Arguments final {A}.
Arguments trace {A}.

(** The state a trace leads to: setter calls are applied in order. *)
Fixpoint replay (t : list TraceItem) (s : UIState) : UIState :=
  match t with
  | [] => s
  | Did a :: t' => replay t' (apply_action a s)
  | _ :: t' => replay t' s
  end.

(** The remote edit call was made somewhere in the trace. *)
Fixpoint calls_editImage (t : list TraceItem) : bool :=
  match t with
  | [] => false
  | CalledEditImage _ _ _ :: _ => true
  | _ :: t' => calls_editImage t'
  end.

(** Some setter call in the trace writes [isLoading]. *)
Fixpoint sets_isLoading (t : list TraceItem) : bool :=
  match t with
  | [] => false
  | Did (SetIsLoading _) :: _ => true
  | _ :: t' => sets_isLoading t'
  end.

Section Exec.

(** The host: how the promises of the two imported functions settle. *)
Variable host_fileToBase64 : File.t -> Settled string.
Variable host_editImage : option string -> string -> string -> Settled (option string).

(** Run [p] from state [s] with no other event in between. *)
Fixpoint exec {A} (p : Prog A) (s : UIState) : Run A :=
  match p with
  | Ret a => mkRun (Returned a) s []
  | Throw e => mkRun (Threw e) s []
  | Act a k =>
      let r := exec k (apply_action a s) in
      mkRun (completion r) (final r) (Did a :: trace r)
  | AwaitRead file k =>
      let r := exec (k (host_fileToBase64 file)) s in
      mkRun (completion r) (final r) (CalledFileToBase64 file :: trace r)
  | AwaitEdit img mime ins k =>
      let r := exec (k (host_editImage img mime ins)) s in
      mkRun (completion r) (final r) (CalledEditImage img mime ins :: trace r)
  end.

End Exec.

(** ** The component inside React's event loop

    Between the moment a handler suspends and the moment its promise
    settles, other events are handled.  [World] is the mounted component
    with its refs, the camera streams the host has handed out, and the
    promises that have not settled yet. *)

(** A promise that has not settled, with what hangs on it. *)
Inductive Task : Type :=
| ReadTask (file : File.t) (k : Settled string -> Prog unit)
| EditTask (img : option string) (mime instructions : string)
           (k : Settled (option string) -> Prog unit)
| MediaTask.   (* [getUserMedia({ video: true })] issued by the camera effect *)

(** Camera streams are numbered in the order the host grants them:
    [granted] streams exist, [stopped] logs every [stop] of a stream's
    tracks. *)
Record World : Type := mkWorld {
  ui : UIState;                 (* the committed state *)
  mounted : bool;               (* the component is mounted *)
  streamRef : option nat;       (* [streamRef.current] *)
  srcObject : option nat;       (* [srcObject] of the mounted video element *)
  granted : nat;
  stopped : list nat;
  pending : list Task
}.

Definition initialWorld : World :=
  {| ui := initialState; mounted := true; streamRef := None; srcObject := None;
     granted := 0; stopped := []; pending := [] |}.

(** [videoRef.current] is non-null exactly while the video element is
    rendered: the component is mounted and [isCameraOpen] holds. *)
Definition videoRef_current (w : World) : bool := mounted w && isCameraOpen (ui w).

(** [canvasRef.current]: the canvas is always rendered. *)
Definition canvasRef_current (w : World) : bool := mounted w.

(** The synchronous part of a program: setter calls up to the first
    suspension.  An exception nobody catches ends the handler. *)
Fixpoint run_sync (p : Prog unit) (s : UIState) : UIState * option Task :=
  match p with
  | Ret _ => (s, None)
  | Throw _ => (s, None)
  | Act a k => run_sync k (apply_action a s)
  | AwaitRead file k => (s, Some (ReadTask file k))
  | AwaitEdit img mime ins k => (s, Some (EditTask img mime ins k))
  end.

(** The function returned by the effect (lines 40-45). *)
Definition effect_cleanup (w : World) : World :=
  match streamRef w with
  | Some stream =>
      {| ui := ui w; mounted := mounted w; streamRef := None; srcObject := srcObject w;
         granted := granted w; stopped := stopped w ++ [stream]; pending := pending w |}
  | None => w
  end.

(** The body of the effect (lines 25-38): the two callbacks hang on the
    [MediaTask]. *)
Definition effect_body (w : World) : World :=
  if isCameraOpen (ui w) then
    {| ui := ui w; mounted := mounted w; streamRef := streamRef w; srcObject := srcObject w;
       granted := granted w; stopped := stopped w; pending := pending w ++ [MediaTask] |}
  else w.

(** React commits a render: when [isCameraOpen] differs from the value
    [was] of the previous render, the video element is mounted or
    unmounted, the previous effect is cleaned up and the effect runs
    again. *)
Definition commit (was : bool) (w : World) : World :=
  if Bool.eqb was (isCameraOpen (ui w)) then w
  else
    effect_body
      (effect_cleanup
         {| ui := ui w; mounted := mounted w; streamRef := streamRef w; srcObject := None;
            granted := granted w; stopped := stopped w; pending := pending w |}).

(** Run a handler, or the rest of one, up to its next suspension.  The
    setters of an unmounted component do nothing. *)
Definition dispatch (p : Prog unit) (w : World) : World :=
  let (s', t) := run_sync p (ui w) in
  commit (isCameraOpen (ui w))
    {| ui := if mounted w then s' else ui w;
       mounted := mounted w; streamRef := streamRef w; srcObject := srcObject w;
       granted := granted w; stopped := stopped w;
       pending := pending w ++ match t with Some t => [t] | None => [] end |}.

(** [.then(stream => ...)] of the effect (lines 27-32), for the stream
    the host grants next. *)
Definition on_stream (w : World) : World :=
  let stream := granted w in
  if videoRef_current w then
    {| ui := ui w; mounted := mounted w; streamRef := Some stream; srcObject := Some stream;
       granted := S (granted w); stopped := stopped w; pending := pending w |}
  else
    {| ui := ui w; mounted := mounted w; streamRef := streamRef w; srcObject := srcObject w;
       granted := S (granted w); stopped := stopped w; pending := pending w |}.

(** [.catch(err => ...)] of the effect (lines 33-37). *)
Definition on_stream_error : Prog unit :=
  setError (Some camera_message) ;;
  setIsCameraOpen false.

Fixpoint remove_nth {A} (i : nat) (l : list A) : list A :=
  match l, i with
  | [], _ => []
  | _ :: l', O => l'
  | x :: l', S i' => x :: remove_nth i' l'
  end.

Definition take_task (i : nat) (w : World) : World :=
  {| ui := ui w; mounted := mounted w; streamRef := streamRef w; srcObject := srcObject w;
     granted := granted w; stopped := stopped w; pending := remove_nth i (pending w) |}.

(** What happens to the component. *)
Inductive Event : Type :=
| FileChange (files : option (list File.t))      (* [onChange] of the file input *)
| PromptChange (text : string)                   (* [onChange] of the textarea *)
| CameraClick                                    (* the Camera button *)
| CancelClick                                    (* the Cancel button *)
| SnapClick (video : HTMLVideoElement) (canvas : HTMLCanvasElement) (now : Z)
| GenerateClick
| ReadSettled (i : nat) (o : Settled string)             (* the i-th pending promise settles *)
| EditSettled (i : nat) (o : Settled (option string))
| MediaSettled (i : nat) (o : Settled unit)
| Unmount.

Definition user_event (p : Prog unit) (w : World) : World :=
  if mounted w then dispatch p w else w.

Definition step (e : Event) (w : World) : World :=
  match e with
  | FileChange files => user_event (handleFileChange files) w
  | PromptChange text => user_event (setPrompt text) w
  | CameraClick => user_event (setIsCameraOpen true) w
  | CancelClick => user_event (setIsCameraOpen false) w
  | SnapClick video canvas now =>
      user_event
        (handleTakePhoto (if videoRef_current w then Some video else None)
                         (if canvasRef_current w then Some canvas else None) now) w
  | GenerateClick => user_event (handleGenerateClick (ui w)) w
  | ReadSettled i o =>
      match nth_error (pending w) i with
      | Some (ReadTask _ k) => dispatch (k o) (take_task i w)
      | _ => w
      end
  | EditSettled i o =>
      match nth_error (pending w) i with
      | Some (EditTask _ _ _ k) => dispatch (k o) (take_task i w)
      | _ => w
      end
  | MediaSettled i o =>
      match nth_error (pending w) i with
      | Some MediaTask =>
          match o with
          | Resolved _ => on_stream (take_task i w)
          | Rejected _ => dispatch on_stream_error (take_task i w)
          end
      | _ => w
      end
  | Unmount =>
      if mounted w then
        let w' := effect_cleanup w in
        {| ui := ui w'; mounted := false; streamRef := streamRef w'; srcObject := None;
           granted := granted w'; stopped := stopped w'; pending := pending w' |}
      else w
  end.

(** The events of a session, oldest first. *)
Definition run (evs : list Event) (w : World) : World :=
  fold_left (fun w e => step e w) evs w.

(** ** What a step can do to the camera

    Every step leaves the stream bookkeeping alone, or stops the stream
    held in [streamRef], or sees the host grant a new stream that is
    either stored in [streamRef] or dropped. *)
Inductive camera_move (w w' : World) : Prop :=
| cam_same :
    streamRef w' = streamRef w -> granted w' = granted w -> stopped w' = stopped w ->
    streamRef w = None \/ videoRef_current w' = videoRef_current w ->
    camera_move w w'
| cam_release stream :
    streamRef w = Some stream ->
    streamRef w' = None -> granted w' = granted w ->
    stopped w' = (stopped w ++ [stream])%list ->
    camera_move w w'
| cam_store :
    videoRef_current w = true ->
    streamRef w' = Some (granted w) -> granted w' = S (granted w) ->
    stopped w' = stopped w ->
    mounted w' = mounted w -> isCameraOpen (ui w') = isCameraOpen (ui w) ->
    camera_move w w'
| cam_drop :
    videoRef_current w = false ->
    streamRef w' = streamRef w -> granted w' = S (granted w) -> stopped w' = stopped w ->
    camera_move w w'.

(** The bookkeeping is consistent: stopped streams were granted, none is
    stopped twice, and a stream held in [streamRef] was granted, is not
    stopped yet, and is held only while the camera is open. *)
Definition camera_ok (w : World) : Prop :=
  NoDup (stopped w) /\
  (forall stream, In stream (stopped w) -> stream < granted w) /\
  (forall stream, streamRef w = Some stream ->
     stream < granted w /\ ~ In stream (stopped w) /\ videoRef_current w = true).

(** ** Where edited images come from *)

(** [u] wraps the payload the remote call [o] returned. *)
Definition payload_url (o : Settled (option string)) (u : string) : Prop :=
  exists p, o = Resolved (Some p) /\ p <> "" /\ u = png_prefix ++ p.

(** During the session [evs] a pending call of [editImage] settled as [o]. *)
Definition edit_settled (o : Settled (option string)) (evs : list Event) : Prop :=
  exists before after i img mime ins k,
    evs = (before ++ EditSettled i o :: after)%list /\
    nth_error (pending (run before initialWorld)) i = Some (EditTask img mime ins k).

(** [u] wraps a payload one of the remote calls of the session returned. *)
Definition returned_by (evs : list Event) (u : string) : Prop :=
  exists o, edit_settled o evs /\ payload_url o u.

Definition action_ok (allowed : string -> Prop) (a : Action) : Prop :=
  match a with
  | SetEditedImage (Some u) => allowed u
  | _ => True
  end.

(** Every [setEditedImage] a program can reach sets [null], an allowed
    value, or the wrapped payload of a remote call the program itself
    awaited. *)
Inductive edits_ok (allowed : string -> Prop) : Prog unit -> Prop :=
| ok_ret a : edits_ok allowed (Ret a)
| ok_throw e : edits_ok allowed (Throw e)
| ok_act a k : action_ok allowed a -> edits_ok allowed k -> edits_ok allowed (Act a k)
| ok_read file k :
    (forall o, edits_ok allowed (k o)) -> edits_ok allowed (AwaitRead file k)
| ok_edit img mime ins k :
    (forall o, edits_ok (fun u => allowed u \/ payload_url o u) (k o)) ->
    edits_ok allowed (AwaitEdit img mime ins k).

Definition task_ok (allowed : string -> Prop) (t : Task) : Prop :=
  match t with
  | ReadTask _ k => forall o, edits_ok allowed (k o)
  | EditTask _ _ _ k => forall o, edits_ok (fun u => allowed u \/ payload_url o u) (k o)
  | MediaTask => True
  end.

Definition edited_ok (allowed : string -> Prop) (s : UIState) : Prop :=
  forall u, editedImage s = Some u -> allowed u.

Definition world_ok (allowed : string -> Prop) (w : World) : Prop :=
  edited_ok allowed (ui w) /\ Forall (task_ok allowed) (pending w).

(** ** What the component renders (lines 133-277)

    The parts of the JSX that depend on the state: which panel is shown,
    which button is enabled, and what a click on a download button passes
    to [handleDownload].  A disabled button has no click: [None]. *)

Inductive OriginalPanel : Type :=
| OriginalPreview (src : string)
| UploadPlaceholder.

Inductive ResultPanel : Type :=
| Spinner
| ErrorText (msg : string)
| EditedPreview (src : string)
| ResultPlaceholder.

Record View : Type := mkView {
  originalDownload : option (string * string);   (* arguments of [handleDownload] *)
  originalPanel : OriginalPanel;
  uploadLabel : string;
  editedDownload : option (string * string);
  resultPanel : ResultPanel;
  promptValue : string;
  generateEnabled : bool;
  generateLabel : string;
  cameraModal : bool
}.

(** [`data:${originalImage.mimeType};base64,${originalImage.base64}`] *)
Definition data_url_of (img : OriginalImage) : string :=
  "data:" ++ mimeType img ++ ";base64," ++ template_of (base64 img).

(** [originalImage?.name || 'original.png'] *)
Definition download_name (img : OriginalImage) : string :=
  if String.eqb (name img) "" then "original.png" else name img.

Definition render (s : UIState) : View :=
  {| originalDownload :=
       match originalImage s with
       | Some img => Some (data_url_of img, download_name img)
       | None => None
       end;
     originalPanel :=
       match originalImage s with
       | Some img => OriginalPreview (data_url_of img)
       | None => UploadPlaceholder
       end;
     uploadLabel :=
       match originalImage s with
       | Some _ => "Change Image"
       | None => "Choose Image"
       end;
     editedDownload :=
       if negb (truthy (editedImage s)) || isLoading s then None
       else Some (template_of (editedImage s), "sponge-ified.png");
     resultPanel :=
       if isLoading s then Spinner
       else if truthy (error s) then ErrorText (template_of (error s))
       else if truthy (editedImage s) then EditedPreview (template_of (editedImage s))
       else ResultPlaceholder;
     promptValue := prompt s;
     generateEnabled :=
       negb (isLoading s || match originalImage s with Some _ => false | None => true end);
     generateLabel := if isLoading s then "Generating..." else "Sponge-ify!";
     cameraModal := isCameraOpen s |}.

(** The interface offers the event: clicks need their button rendered and
    enabled; promises settle and the component unmounts at any time. *)
Definition ui_allows (e : Event) (w : World) : bool :=
  match e with
  | FileChange _ | PromptChange _ | CameraClick => mounted w
  | CancelClick | SnapClick _ _ _ => mounted w && cameraModal (render (ui w))
  | GenerateClick => mounted w && generateEnabled (render (ui w))
  | ReadSettled _ _ | EditSettled _ _ | MediaSettled _ _ | Unmount => true
  end.

(** Every event of the session was offered when it happened. *)
Fixpoint offered (evs : list Event) (w : World) : bool :=
  match evs with
  | [] => true
  | e :: evs' => ui_allows e w && offered evs' (step e w)
  end.

(** The promise a program suspended on, if it did. *)
Definition new_tasks (t : option Task) : list Task :=
  match t with
  | Some t => [t]
  | None => []
  end.

(** Pending calls of [editImage] and of [getUserMedia]. *)
Fixpoint edits_in_flight (ts : list Task) : nat :=
  match ts with
  | [] => 0
  | EditTask _ _ _ _ :: ts' => S (edits_in_flight ts')
  | _ :: ts' => edits_in_flight ts'
  end.

Fixpoint media_in_flight (ts : list Task) : nat :=
  match ts with
  | [] => 0
  | MediaTask :: ts' => S (media_in_flight ts')
  | _ :: ts' => media_in_flight ts'
  end.

(** A stream is held and untouched, or released for good. *)
Definition held_or_released (stream : nat) (w : World) : Prop :=
  camera_ok w /\ stream < granted w /\
  ((streamRef w = Some stream /\ count_occ Nat.eq_dec (stopped w) stream = 0 /\
    media_in_flight (pending w) = 0)
   \/ (streamRef w <> Some stream /\ count_occ Nat.eq_dec (stopped w) stream = 1)).

(** What the second half of a suspended handler may do, whatever state it
    resumes in: the rest of [handleFileChange] leaves [prompt],
    [isLoading], [isCameraOpen] and [editedImage] alone; the rest of
    [handleGenerateClick] leaves [prompt], [isCameraOpen] and
    [originalImage] alone and ends with [isLoading] false; an error either
    of them sets is not the empty text.  Neither suspends again. *)
Definition error_shown_ok (s : UIState) : Prop :=
  forall m, error s = Some m -> m <> "".

Definition task_shape (t : Task) : Prop :=
  match t with
  | ReadTask _ k =>
      forall o s,
        let s' := fst (run_sync (k o) s) in
        snd (run_sync (k o) s) = None /\
        prompt s' = prompt s /\ isLoading s' = isLoading s /\
        isCameraOpen s' = isCameraOpen s /\ editedImage s' = editedImage s /\
        (error_shown_ok s -> error_shown_ok s')
  | EditTask _ _ _ k =>
      forall o s,
        let s' := fst (run_sync (k o) s) in
        snd (run_sync (k o) s) = None /\
        prompt s' = prompt s /\ isLoading s' = false /\
        isCameraOpen s' = isCameraOpen s /\ originalImage s' = originalImage s /\
        (error_shown_ok s -> error_shown_ok s')
  | MediaTask => True
  end.


(** The loading flag tells whether a call of [editImage] is pending, and
    at most one is. *)
Definition flight_ok (w : World) : Prop :=
  Forall task_shape (pending w) /\
  edits_in_flight (pending w) <= 1 /\
  (mounted w = true ->
   (isLoading (ui w) = true <-> edits_in_flight (pending w) = 1)).

(** ** Downloading (lines 117-124)

    The page as far as [handleDownload] touches it: the children of
    [document.body], the elements created so far, and the saves that
    clicks on download links have triggered. *)
Record Document : Type := mkDocument {
  body : list nat;                    (* child nodes of [document.body], in order *)
  created : nat;                      (* nodes are numbered as they are created *)
  saves : list (string * string)      (* (url, file name) of every triggered save *)
}.

(** [document.createElement('a')]: a fresh, detached node. *)
Definition createElement (d : Document) : nat * Document :=
  (created d, {| body := body d; created := S (created d); saves := saves d |}).

(** [document.body.appendChild(node)]: the node becomes the last child
    (it is first taken out of the place it was in, if any). *)
Definition appendChild (node : nat) (d : Document) : Document :=
  {| body := List.remove Nat.eq_dec node (body d) ++ [node];
     created := created d; saves := saves d |}.

(** [link.click()] on an anchor with [href] and [download] set. *)
Definition click (href download : string) (d : Document) : Document :=
  {| body := body d; created := created d; saves := saves d ++ [(href, download)] |}.

(** [document.body.removeChild(node)]: throws ([None]) when the node is
    not a child of the body. *)
Definition removeChild (node : nat) (d : Document) : option Document :=
  if in_dec Nat.eq_dec node (body d) then
    Some {| body := List.remove Nat.eq_dec node (body d);
            created := created d; saves := saves d |}
  else None.

Definition handleDownload (dataUrl filename : string) (d : Document) : option Document :=
  let (link, d1) := createElement d in
  let d2 := appendChild link d1 in
  let d3 := click dataUrl filename d2 in
  removeChild link d3.

(** ** Sample inputs *)

Definition red_png : File.t := File.mk "image/png" "red.png".
Definition notes_txt : File.t := File.mk "text/plain" "notes.txt".

(** A session showing an uploaded GIF, an edited result and an old error. *)
Definition shown_state : UIState :=
  {| originalImage := Some {| base64 := Some "R0lGODlh"; mimeType := "image/gif"; name := "old.gif" |};
     editedImage := Some "data:image/png;base64,iVBORw0KGgo=";
     prompt := "add a hat";
     isLoading := false;
     error := Some "An error occurred: quota exceeded";
     isCameraOpen := false |}.

Definition reads_as (url : string) : File.t -> Settled string := fun _ => Resolved url.
Definition read_fails : File.t -> Settled string :=
  fun _ => Rejected (ErrorObj "NotReadableError").
Definition edit_settles (o : Settled (option string)) :
    option string -> string -> string -> Settled (option string) := fun _ _ _ => o.

Definition webcam_frame : HTMLVideoElement := {| videoWidth := 640; videoHeight := 480 |}.
Definition jpeg_canvas : HTMLCanvasElement :=
  {| getContext2d := true; toDataURL := fun _ _ _ => "data:image/jpeg;base64,/9j/4AAQSkZJRg==" |}.
Definition canvas_without_context : HTMLCanvasElement :=
  {| getContext2d := false; toDataURL := fun _ _ _ => "data:image/jpeg;base64,/9j/4AAQSkZJRg==" |}.

(** ** Elementary facts *)

Example split_png : split "," "data:image/png;base64,iVBORw0KGgo=" = ["data:image/png;base64"; "iVBORw0KGgo="].
Proof. reflexivity. Qed.

Example split_three : at_index (split "," "a,b,c") 1 = Some "b".
Proof. reflexivity. Qed.

Example split_none : at_index (split "," "abc") 1 = None.
Proof. reflexivity. Qed.

Example split_empty_canvas : at_index (split "," "data:,") 1 = Some "".
Proof. reflexivity. Qed.

Example number_toString_now : number_toString 1730600000000 = "1730600000000".
Proof. reflexivity. Qed.

Example number_toString_zero : number_toString 0 = "0".
Proof. reflexivity. Qed.

Lemma exec_replay hr he {A} (p : Prog A) (s : UIState) :
  final (exec hr he p s) = replay (trace (exec hr he p s)) s.
Proof.
  revert s; induction p as [a|e|a k IH|file k IH|img mime ins k IH]; intros s; simpl; auto.
Qed.

Lemma split_without_sep sep s : contains sep s = false -> split sep s = [s].
Proof.
  induction s as [|c rest IH]; simpl; intros H; [reflexivity|].
  apply orb_false_iff in H as [Hc Hrest].
  rewrite Hc, (IH Hrest). reflexivity.
Qed.

Lemma split_at_first_sep sep hd tl :
  contains sep hd = false -> split sep (hd ++ String sep tl) = hd :: split sep tl.
Proof.
  induction hd as [|c rest IH]; simpl; intros H.
  - rewrite Ascii.eqb_refl. reflexivity.
  - apply orb_false_iff in H as [Hc Hrest].
    rewrite Hc, (IH Hrest). reflexivity.
Qed.

Lemma base64_has_no_comma s : is_base64 s = true -> contains "," s = false.
Proof.
  induction s as [|c rest IH]; simpl; intros H; [reflexivity|].
  apply andb_true_iff in H as [Hc Hrest].
  rewrite (IH Hrest), orb_false_r.
  destruct (Ascii.eqb_spec c ","); [subst c; discriminate Hc | reflexivity].
Qed.

(** When the text after the first comma has no further comma, it is the
    second segment of the split at commas. *)
Lemma after_first_comma hdr body :
  contains "," hdr = false -> contains "," body = false ->
  at_index (split "," (hdr ++ "," ++ body)) 1 = Some body.
Proof.
  intros Hh Hb. simpl.
  rewrite (split_at_first_sep _ _ _ Hh), (split_without_sep _ _ Hb). reflexivity.
Qed.

(** So it is for a base64 data URL: header, comma, base64 text. *)
Lemma data_url_body hdr body :
  contains "," hdr = false -> is_base64 body = true ->
  at_index (split "," (hdr ++ "," ++ body)) 1 = Some body.
Proof.
  intros Hh Hb. apply after_first_comma; [exact Hh | apply base64_has_no_comma, Hb].
Qed.

(** A text without a comma has no second segment. *)
Lemma no_comma_no_body url :
  contains "," url = false -> at_index (split "," url) 1 = None.
Proof.
  intros H. rewrite (split_without_sep _ _ H). reflexivity.
Qed.

(** ** Selecting a file *)

Section FileSelection.

Variable host_read : File.t -> Settled string.
Variable host_edit : option string -> string -> string -> Settled (option string).

(** A selected file whose type is not an image type: one setter call,
    no read. *)
Lemma handleFileChange_not_image files file s :
  first_file files = Some file ->
  startsWith (File.type file) "image/" = false ->
  exec host_read host_edit (handleFileChange files) s =
    mkRun (Returned tt) (apply_action (SetError (Some validation_message)) s)
          [Did (SetError (Some validation_message))].
Proof.
  intros Hf Ht. unfold handleFileChange. rewrite Hf, Ht. reflexivity.
Qed.

(** An image file whose read fails. *)
Lemma handleFileChange_read_fails files file e s :
  first_file files = Some file ->
  startsWith (File.type file) "image/" = true ->
  host_read file = Rejected e ->
  exec host_read host_edit (handleFileChange files) s =
    mkRun (Returned tt)
          {| originalImage := None; editedImage := None; prompt := prompt s;
             isLoading := isLoading s; error := Some read_failure_message;
             isCameraOpen := isCameraOpen s |}
          [Did (SetError None); Did (SetEditedImage None); CalledFileToBase64 file;
           Did (SetError (Some read_failure_message)); Did (SetOriginalImage None)].
Proof.
  intros Hf Ht Hr. unfold handleFileChange. rewrite Hf, Ht. simpl.
  rewrite Hr. reflexivity.
Qed.

(** An image file whose read succeeds with the data URL [url]. *)
Lemma handleFileChange_read_succeeds files file url s :
  first_file files = Some file ->
  startsWith (File.type file) "image/" = true ->
  host_read file = Resolved url ->
  final (exec host_read host_edit (handleFileChange files) s) =
    {| originalImage :=
         Some {| base64 := at_index (split "," url) 1;
                 mimeType := File.type file; name := File.name file |};
       editedImage := None; prompt := prompt s; isLoading := isLoading s;
       error := None; isCameraOpen := isCameraOpen s |}.
Proof.
  intros Hf Ht Hr. unfold handleFileChange. rewrite Hf, Ht. simpl.
  rewrite Hr. reflexivity.
Qed.

End FileSelection.

Section FileSelectionClaims.

Variable host_read : File.t -> Settled string.
Variable host_edit : option string -> string -> string -> Settled (option string).

(** C9. A change event that carries no file ([files] is null or empty)
    runs no setter and starts no read: the handler returns with the UI
    state exactly as it was. *)
Theorem handleFileChange_no_file files s :
  first_file files = None ->
  exec host_read host_edit (handleFileChange files) s = mkRun (Returned tt) s [].
Proof.
  intros Hf. unfold handleFileChange. rewrite Hf. reflexivity.
Qed.

(** C1, as the code has it.  When the selected file is not an image,
    only [error] changes (to the validation message).  When the read of
    an image file fails, [error] becomes the read-failure message and
    both [originalImage] and [editedImage] are cleared; [prompt],
    [isLoading] and [isCameraOpen] keep their values. *)
Theorem handleFileChange_failure files file s :
  first_file files = Some file ->
  (startsWith (File.type file) "image/" = false ->
     final (exec host_read host_edit (handleFileChange files) s) =
       {| originalImage := originalImage s; editedImage := editedImage s;
          prompt := prompt s; isLoading := isLoading s;
          error := Some validation_message; isCameraOpen := isCameraOpen s |})
  /\
  (startsWith (File.type file) "image/" = true ->
   forall e, host_read file = Rejected e ->
     final (exec host_read host_edit (handleFileChange files) s) =
       {| originalImage := None; editedImage := None;
          prompt := prompt s; isLoading := isLoading s;
          error := Some read_failure_message; isCameraOpen := isCameraOpen s |}).
Proof.
  intros Hf; split.
  - intros Ht. rewrite (handleFileChange_not_image _ _ _ _ _ Hf Ht). reflexivity.
  - intros Ht e Hr. rewrite (handleFileChange_read_fails _ _ _ _ _ _ Hf Ht Hr). reflexivity.
Qed.

(** C4. For an image file whose read resolves with a data URL
    [hdr,body], where the comma shown is the first one and the body has
    none (as base64 text never has), the stored image has the file's
    declared type, the file's name, and as its base64 payload [body], the
    portion of the URL after the first comma. *)
Theorem handleFileChange_stores_image files file hdr body s :
  first_file files = Some file ->
  startsWith (File.type file) "image/" = true ->
  host_read file = Resolved (hdr ++ "," ++ body) ->
  contains "," hdr = false ->
  contains "," body = false ->
  originalImage (final (exec host_read host_edit (handleFileChange files) s)) =
    Some {| base64 := Some body; mimeType := File.type file; name := File.name file |}.
Proof.
  intros Hf Ht Hr Hh Hb.
  rewrite (handleFileChange_read_succeeds _ _ _ _ _ _ Hf Ht Hr).
  cbn [originalImage]. rewrite (after_first_comma _ _ Hh Hb). reflexivity.
Qed.

(** In particular for a base64 data URL. *)
Lemma handleFileChange_stores_base64 files file hdr body s :
  first_file files = Some file ->
  startsWith (File.type file) "image/" = true ->
  host_read file = Resolved (hdr ++ "," ++ body) ->
  contains "," hdr = false ->
  is_base64 body = true ->
  originalImage (final (exec host_read host_edit (handleFileChange files) s)) =
    Some {| base64 := Some body; mimeType := File.type file; name := File.name file |}.
Proof.
  intros Hf Ht Hr Hh Hb.
  rewrite (handleFileChange_read_succeeds _ _ _ _ _ _ Hf Ht Hr).
  cbn [originalImage]. rewrite (data_url_body _ _ Hh Hb). reflexivity.
Qed.

(** C5. Selecting an image file clears the edited result and the error,
    whatever the state was: both are absent when the handler suspends on
    the read, and both are absent when a successful read has been
    stored. *)
Theorem handleFileChange_clears_result files file s :
  first_file files = Some file ->
  startsWith (File.type file) "image/" = true ->
  (editedImage (fst (run_sync (handleFileChange files) s)) = None /\
   error (fst (run_sync (handleFileChange files) s)) = None)
  /\
  (forall url, host_read file = Resolved url ->
     editedImage (final (exec host_read host_edit (handleFileChange files) s)) = None /\
     error (final (exec host_read host_edit (handleFileChange files) s)) = None).
Proof.
  intros Hf Ht; split.
  - unfold handleFileChange. rewrite Hf, Ht. simpl. split; reflexivity.
  - intros url Hr. rewrite (handleFileChange_read_succeeds _ _ _ _ _ _ Hf Ht Hr).
    split; reflexivity.
Qed.

End FileSelectionClaims.

Lemma handleFileChange_no_file_witness :
  first_file (Some []) = None /\
  exec read_fails (edit_settles (Resolved None)) (handleFileChange (Some [])) shown_state
    = mkRun (Returned tt) shown_state [].
Proof.
  split; [reflexivity|].
  apply (handleFileChange_no_file read_fails (edit_settles (Resolved None)) (Some []) shown_state).
  reflexivity.
Defined.

(** C1 as stated fails on the read-failure path: with an image shown, a
    failed read of a newly selected PNG clears [originalImage] (and the
    edited result with it). *)
Lemma read_failure_clears_originalImage :
  startsWith (File.type red_png) "image/" = true /\
  read_fails red_png = Rejected (ErrorObj "NotReadableError") /\
  originalImage shown_state <> None /\
  originalImage
    (final (exec read_fails (edit_settles (Resolved None))
                 (handleFileChange (Some [red_png])) shown_state)) = None /\
  editedImage shown_state <> None /\
  editedImage
    (final (exec read_fails (edit_settles (Resolved None))
                 (handleFileChange (Some [red_png])) shown_state)) = None.
Proof.
  repeat split; try reflexivity; discriminate.
Qed.

Lemma handleFileChange_failure_witness :
  final (exec read_fails (edit_settles (Resolved None))
              (handleFileChange (Some [notes_txt])) shown_state) =
    {| originalImage := originalImage shown_state; editedImage := editedImage shown_state;
       prompt := "add a hat"; isLoading := false;
       error := Some validation_message; isCameraOpen := false |}
  /\
  final (exec read_fails (edit_settles (Resolved None))
              (handleFileChange (Some [red_png])) shown_state) =
    {| originalImage := None; editedImage := None;
       prompt := "add a hat"; isLoading := false;
       error := Some read_failure_message; isCameraOpen := false |}.
Proof.
  split.
  - apply (proj1 (handleFileChange_failure read_fails (edit_settles (Resolved None))
                    (Some [notes_txt]) notes_txt shown_state eq_refl)).
    reflexivity.
  - apply (proj2 (handleFileChange_failure read_fails (edit_settles (Resolved None))
                    (Some [red_png]) red_png shown_state eq_refl)
             eq_refl (ErrorObj "NotReadableError")).
    reflexivity.
Defined.

Lemma handleFileChange_stores_image_witness :
  originalImage
    (final (exec (reads_as "data:image/png;base64,iVBORw0KGgo=") (edit_settles (Resolved None))
                 (handleFileChange (Some [red_png])) shown_state)) =
    Some {| base64 := Some "iVBORw0KGgo="; mimeType := "image/png"; name := "red.png" |}.
Proof.
  apply (handleFileChange_stores_image (reads_as "data:image/png;base64,iVBORw0KGgo=")
           (edit_settles (Resolved None)) (Some [red_png]) red_png
           "data:image/png;base64" "iVBORw0KGgo=" shown_state);
    reflexivity.
Defined.

Lemma handleFileChange_clears_result_witness :
  editedImage shown_state <> None /\ error shown_state <> None /\
  editedImage (fst (run_sync (handleFileChange (Some [red_png])) shown_state)) = None /\
  error (fst (run_sync (handleFileChange (Some [red_png])) shown_state)) = None /\
  editedImage
    (final (exec (reads_as "data:image/png;base64,iVBORw0KGgo=") (edit_settles (Resolved None))
                 (handleFileChange (Some [red_png])) shown_state)) = None /\
  error
    (final (exec (reads_as "data:image/png;base64,iVBORw0KGgo=") (edit_settles (Resolved None))
                 (handleFileChange (Some [red_png])) shown_state)) = None.
Proof.
  split; [discriminate|]. split; [discriminate|].
  pose proof (handleFileChange_clears_result
                (reads_as "data:image/png;base64,iVBORw0KGgo=") (edit_settles (Resolved None))
                (Some [red_png]) red_png shown_state eq_refl eq_refl) as [[H1 H2] H3].
  destruct (H3 "data:image/png;base64,iVBORw0KGgo=" eq_refl) as [H4 H5].
  repeat split; assumption.
Defined.

(** ** Submitting an edit *)

(** Past the guard the handler is its [try]/[catch]/[finally] block. *)
Lemma handleGenerateClick_past_guard s img :
  originalImage s = Some img ->
  prompt s <> "" ->
  handleGenerateClick s =
    (setIsLoading true ;;
     setError None ;;
     setEditedImage None ;;
     finally
       (catch
          (generatedImageBase64 <- editImage (base64 img) (mimeType img) (prompt s) ;;
           if truthy generatedImageBase64 then
             setEditedImage (Some (png_prefix ++ template_of generatedImageBase64))
           else
             raise (ErrorObj no_image_message))
          (fun err =>
             m <- message_of err ;;
             setError (Some (error_prefix ++ template_of m))))
       (setIsLoading false)).
Proof.
  intros Himg Hprompt. unfold handleGenerateClick.
  rewrite Himg, (proj2 (String.eqb_neq _ _) Hprompt). reflexivity.
Qed.

Ltac pass_guard Himg Hprompt :=
  rewrite (handleGenerateClick_past_guard _ _ Himg Hprompt); simpl.

Section SubmitEdit.

Variable host_read : File.t -> Settled string.
Variable host_edit : option string -> string -> string -> Settled (option string).

(** C2. When [originalImage] is absent or the prompt is empty, the only
    thing the handler does is one [setError]: the remote call is not
    made, and every field but [error] keeps its value. *)
Theorem handleGenerateClick_guard s :
  originalImage s = None \/ prompt s = "" ->
  exec host_read host_edit (handleGenerateClick s) s =
    mkRun (Returned tt)
          {| originalImage := originalImage s; editedImage := editedImage s;
             prompt := prompt s; isLoading := isLoading s;
             error := Some guard_message; isCameraOpen := isCameraOpen s |}
          [Did (SetError (Some guard_message))]
  /\ calls_editImage (trace (exec host_read host_edit (handleGenerateClick s) s)) = false.
Proof.
  intros Hguard.
  assert (Hbody : handleGenerateClick s = setError (Some guard_message)).
  { unfold handleGenerateClick. destruct Hguard as [Himg | Hprompt].
    - rewrite Himg. reflexivity.
    - rewrite Hprompt. destruct (originalImage s); reflexivity. }
  rewrite Hbody. split; reflexivity.
Qed.

(** C3. Past the guard, the handler sets [isLoading] to true (then clears
    [error] and [editedImage]) before it calls [editImage]; once the call
    has settled, whichever way, nothing writes [isLoading] until the
    closing [setIsLoading(false)], which is the last thing the handler
    does. *)
Theorem handleGenerateClick_loading s img :
  originalImage s = Some img ->
  prompt s <> "" ->
  exists post,
    trace (exec host_read host_edit (handleGenerateClick s) s) =
      ([Did (SetIsLoading true); Did (SetError None); Did (SetEditedImage None);
        CalledEditImage (base64 img) (mimeType img) (prompt s)]
       ++ post ++ [Did (SetIsLoading false)])%list
    /\ calls_editImage post = false
    /\ sets_isLoading post = false
    /\ isLoading (replay [Did (SetIsLoading true); Did (SetError None);
                          Did (SetEditedImage None)] s) = true
    /\ isLoading (final (exec host_read host_edit (handleGenerateClick s) s)) = false.
Proof.
  intros Himg Hprompt. pass_guard Himg Hprompt.
  destruct (host_edit (base64 img) (mimeType img) (prompt s)) as [[p|]|[m| |]]; simpl.
  - destruct (String.eqb p ""); simpl.
    + exists [Did (SetError (Some (error_prefix ++ no_image_message)))]. repeat split.
    + exists [Did (SetEditedImage (Some (png_prefix ++ p)))]. repeat split.
  - exists [Did (SetError (Some (error_prefix ++ no_image_message)))]. repeat split.
  - exists [Did (SetError (Some (error_prefix ++ m)))]. repeat split.
  - exists [Did (SetError (Some (error_prefix ++ "undefined")))]. repeat split.
  - exists []. repeat split.
Qed.

(** The edited image a successful call leaves behind. *)
Lemma handleGenerateClick_success s img p :
  originalImage s = Some img ->
  prompt s <> "" ->
  host_edit (base64 img) (mimeType img) (prompt s) = Resolved (Some p) ->
  p <> "" ->
  final (exec host_read host_edit (handleGenerateClick s) s) =
    {| originalImage := originalImage s; editedImage := Some (png_prefix ++ p);
       prompt := prompt s; isLoading := false; error := None;
       isCameraOpen := isCameraOpen s |}.
Proof.
  intros Himg Hprompt Ho Hp. pass_guard Himg Hprompt.
  rewrite Ho. simpl. rewrite (proj2 (String.eqb_neq _ _) Hp). reflexivity.
Qed.

(** C7. A call that resolves without a payload sets the error to
    "An error occurred: The model did not return an image. Please try a
    different prompt."; a call that fails with message [reason] sets it to
    "An error occurred: " followed by [reason], which is a different text
    for every [reason] other than the no-image sentence. *)
Theorem handleGenerateClick_error_messages s img :
  originalImage s = Some img ->
  prompt s <> "" ->
  (forall v, host_edit (base64 img) (mimeType img) (prompt s) = Resolved v ->
     truthy v = false ->
     error (final (exec host_read host_edit (handleGenerateClick s) s)) =
       Some "An error occurred: The model did not return an image. Please try a different prompt.")
  /\
  (forall reason, host_edit (base64 img) (mimeType img) (prompt s) = Rejected (ErrorObj reason) ->
     error (final (exec host_read host_edit (handleGenerateClick s) s)) =
       Some ("An error occurred: " ++ reason)
     /\ (reason <> no_image_message ->
         "An error occurred: " ++ reason <>
         "An error occurred: The model did not return an image. Please try a different prompt.")).
Proof.
  intros Himg Hprompt; split.
  - intros v Ho Hv. pass_guard Himg Hprompt. rewrite Ho. simpl. rewrite Hv. reflexivity.
  - intros reason Ho. split.
    + pass_guard Himg Hprompt. rewrite Ho. reflexivity.
    + intros Hne Heq. apply Hne.
      change "An error occurred: The model did not return an image. Please try a different prompt."
        with (error_prefix ++ no_image_message) in Heq.
      change "An error occurred: " with error_prefix in Heq.
      revert Heq. generalize error_prefix as pre.
      induction pre as [|c pre IH]; simpl; intros Heq; [assumption|].
      injection Heq as Heq. auto.
Qed.

End SubmitEdit.

Lemma handleGenerateClick_guard_witness :
  exec read_fails (edit_settles (Resolved (Some "QUJD"))) (handleGenerateClick initialState)
       initialState =
    mkRun (Returned tt)
          {| originalImage := None; editedImage := None; prompt := initial_prompt;
             isLoading := false; error := Some guard_message; isCameraOpen := false |}
          [Did (SetError (Some guard_message))]
  /\ calls_editImage
       (trace (exec read_fails (edit_settles (Resolved (Some "QUJD")))
                    (handleGenerateClick initialState) initialState)) = false.
Proof.
  apply (handleGenerateClick_guard read_fails (edit_settles (Resolved (Some "QUJD")))
           initialState).
  left; reflexivity.
Defined.

Lemma handleGenerateClick_loading_witness :
  exists post,
    trace (exec read_fails (edit_settles (Rejected (ErrorObj "quota exceeded")))
                (handleGenerateClick shown_state) shown_state) =
      ([Did (SetIsLoading true); Did (SetError None); Did (SetEditedImage None);
        CalledEditImage (Some "R0lGODlh") "image/gif" "add a hat"]
       ++ post ++ [Did (SetIsLoading false)])%list
    /\ calls_editImage post = false
    /\ sets_isLoading post = false
    /\ isLoading (replay [Did (SetIsLoading true); Did (SetError None);
                          Did (SetEditedImage None)] shown_state) = true
    /\ isLoading (final (exec read_fails (edit_settles (Rejected (ErrorObj "quota exceeded")))
                              (handleGenerateClick shown_state) shown_state)) = false.
Proof.
  apply (handleGenerateClick_loading read_fails
           (edit_settles (Rejected (ErrorObj "quota exceeded"))) shown_state
           {| base64 := Some "R0lGODlh"; mimeType := "image/gif"; name := "old.gif" |}).
  - reflexivity.
  - discriminate.
Defined.

Lemma handleGenerateClick_error_messages_witness :
  error (final (exec read_fails (edit_settles (Resolved None))
                     (handleGenerateClick shown_state) shown_state)) =
    Some "An error occurred: The model did not return an image. Please try a different prompt."
  /\
  error (final (exec read_fails (edit_settles (Rejected (ErrorObj "quota exceeded")))
                     (handleGenerateClick shown_state) shown_state)) =
    Some "An error occurred: quota exceeded"
  /\
  "An error occurred: quota exceeded" <>
  "An error occurred: The model did not return an image. Please try a different prompt.".
Proof.
  pose (img := {| base64 := Some "R0lGODlh"; mimeType := "image/gif"; name := "old.gif" |}).
  assert (Hprompt : prompt shown_state <> "") by discriminate.
  split; [|split].
  - apply (proj1 (handleGenerateClick_error_messages read_fails (edit_settles (Resolved None))
                    shown_state img eq_refl Hprompt) None); reflexivity.
  - apply (proj2 (handleGenerateClick_error_messages read_fails
                    (edit_settles (Rejected (ErrorObj "quota exceeded")))
                    shown_state img eq_refl Hprompt) "quota exceeded"). reflexivity.
  - apply (proj2 (handleGenerateClick_error_messages read_fails
                    (edit_settles (Rejected (ErrorObj "quota exceeded")))
                    shown_state img eq_refl Hprompt) "quota exceeded"); [reflexivity | discriminate].
Defined.

(** ** Taking a photo *)

Section TakePhoto.

Variable host_read : File.t -> Settled string.
Variable host_edit : option string -> string -> string -> Settled (option string).

(** C6, as the code has it.  With the video and the canvas mounted and a
    2D context at hand, the handler stores the capture (the second comma
    segment of [canvas.toDataURL('image/jpeg')], type image/jpeg, name
    webcam-photo-<Date.now()>.jpg), clears [editedImage] and [error] and
    closes the camera; prompt and isLoading keep their values.  When
    either ref is null or there is no context, it does nothing at all. *)
Theorem handleTakePhoto_capture video canvas now s :
  (forall v c, video = Some v -> canvas = Some c -> getContext2d c = true ->
     exec host_read host_edit (handleTakePhoto video canvas now) s =
       let img := {| base64 := at_index (split "," (toDataURL c "image/jpeg"
                                                      (videoWidth v) (videoHeight v))) 1;
                     mimeType := "image/jpeg";
                     name := "webcam-photo-" ++ number_toString now ++ ".jpg" |} in
       mkRun (Returned tt)
             {| originalImage := Some img; editedImage := None; prompt := prompt s;
                isLoading := isLoading s; error := None; isCameraOpen := false |}
             [Did (SetOriginalImage (Some img)); Did (SetEditedImage None);
              Did (SetError None); Did (SetIsCameraOpen false)])
  /\
  (video = None \/ canvas = None \/ (exists c, canvas = Some c /\ getContext2d c = false) ->
     exec host_read host_edit (handleTakePhoto video canvas now) s = mkRun (Returned tt) s []).
Proof.
  split.
  - intros v c -> -> Hctx. unfold handleTakePhoto. rewrite Hctx. reflexivity.
  - intros [-> | [-> | [c [-> Hctx]]]]; unfold handleTakePhoto.
    + reflexivity.
    + destruct video; reflexivity.
    + rewrite Hctx. destruct video; reflexivity.
Qed.

End TakePhoto.

(** C6 as stated fails when [canvas.getContext('2d')] is null: the snap
    handler returns without a capture and the camera stays open. *)
Lemma snap_without_context_keeps_camera_open :
  let s := apply_action (SetIsCameraOpen true) shown_state in
  let r := exec read_fails (edit_settles (Resolved None))
                (handleTakePhoto (Some webcam_frame) (Some canvas_without_context)
                                 1730600000000) s in
  isCameraOpen s = true /\
  isCameraOpen (final r) = true /\
  originalImage (final r) = originalImage shown_state /\
  editedImage (final r) <> None /\
  error (final r) <> None /\
  isCameraOpen
    (ui (run [CameraClick; SnapClick webcam_frame canvas_without_context 1730600000000]
             initialWorld)) = true.
Proof.
  cbv zeta. repeat split; try reflexivity; discriminate.
Qed.

Lemma handleTakePhoto_capture_witness :
  exec read_fails (edit_settles (Resolved None))
       (handleTakePhoto (Some webcam_frame) (Some jpeg_canvas) 1730600000000)
       (apply_action (SetIsCameraOpen true) shown_state) =
    mkRun (Returned tt)
          {| originalImage :=
               Some {| base64 := Some "/9j/4AAQSkZJRg=="; mimeType := "image/jpeg";
                       name := "webcam-photo-1730600000000.jpg" |};
             editedImage := None; prompt := "add a hat"; isLoading := false;
             error := None; isCameraOpen := false |}
          [Did (SetOriginalImage
                  (Some {| base64 := Some "/9j/4AAQSkZJRg=="; mimeType := "image/jpeg";
                           name := "webcam-photo-1730600000000.jpg" |}));
           Did (SetEditedImage None); Did (SetError None); Did (SetIsCameraOpen false)]
  /\
  exec read_fails (edit_settles (Resolved None))
       (handleTakePhoto None (Some jpeg_canvas) 1730600000000) shown_state =
    mkRun (Returned tt) shown_state [].
Proof.
  split.
  - apply (proj1 (handleTakePhoto_capture read_fails (edit_settles (Resolved None))
                    (Some webcam_frame) (Some jpeg_canvas) 1730600000000
                    (apply_action (SetIsCameraOpen true) shown_state))
             webcam_frame jpeg_canvas eq_refl eq_refl eq_refl).
  - apply (proj2 (handleTakePhoto_capture read_fails (edit_settles (Resolved None))
                    None (Some jpeg_canvas) 1730600000000 shown_state)).
    left; reflexivity.
Defined.

(** ** The event loop *)

Lemma run_snoc evs e w : run (evs ++ [e]) w = step e (run evs w).
Proof. unfold run. rewrite fold_left_app. reflexivity. Qed.

(** A property every step preserves holds along every session. *)
Lemma run_invariant (I : World -> Prop) :
  (forall e w, I w -> I (step e w)) ->
  forall evs w, I w -> I (run evs w).
Proof.
  intros Hstep evs; induction evs as [|e evs IH]; intros w Hw; simpl.
  - exact Hw.
  - apply IH, Hstep, Hw.
Qed.

Lemma commit_ui was w : ui (commit was w) = ui w.
Proof.
  unfold commit, effect_body, effect_cleanup.
  destruct (Bool.eqb was (isCameraOpen (ui w))); [reflexivity|]; simpl.
  destruct (streamRef w); simpl; destruct (isCameraOpen (ui w)); reflexivity.
Qed.

Lemma commit_mounted was w : mounted (commit was w) = mounted w.
Proof.
  unfold commit, effect_body, effect_cleanup.
  destruct (Bool.eqb was (isCameraOpen (ui w))); [reflexivity|]; simpl.
  destruct (streamRef w); simpl; destruct (isCameraOpen (ui w)); reflexivity.
Qed.

Lemma commit_pending was w :
  pending (commit was w) = pending w \/ pending (commit was w) = (pending w ++ [MediaTask])%list.
Proof.
  unfold commit, effect_body, effect_cleanup.
  destruct (Bool.eqb was (isCameraOpen (ui w))); [left; reflexivity|]; simpl.
  destruct (streamRef w); simpl; destruct (isCameraOpen (ui w)); simpl; auto.
Qed.

(** A commit changes the stream bookkeeping only when [isCameraOpen]
    changed, and then it stops the stream held in [streamRef], if any. *)
Lemma commit_camera was w :
  (Bool.eqb was (isCameraOpen (ui w)) = true /\ commit was w = w)
  \/ (Bool.eqb was (isCameraOpen (ui w)) = false /\
      streamRef (commit was w) = None /\ granted (commit was w) = granted w /\
      match streamRef w with
      | Some stream => stopped (commit was w) = (stopped w ++ [stream])%list
      | None => stopped (commit was w) = stopped w
      end).
Proof.
  unfold commit, effect_body, effect_cleanup.
  destruct (Bool.eqb was (isCameraOpen (ui w))); [left; split; reflexivity|]; right; simpl.
  destruct (streamRef w); simpl; destruct (isCameraOpen (ui w)); simpl; auto.
Qed.

Lemma dispatch_ui p w :
  ui (dispatch p w) = if mounted w then fst (run_sync p (ui w)) else ui w.
Proof.
  unfold dispatch. destruct (run_sync p (ui w)) as [s' t]. rewrite commit_ui. reflexivity.
Qed.

Lemma dispatch_mounted p w : mounted (dispatch p w) = mounted w.
Proof.
  unfold dispatch. destruct (run_sync p (ui w)) as [s' t]. rewrite commit_mounted. reflexivity.
Qed.

Lemma dispatch_camera p w : camera_move w (dispatch p w).
Proof.
  unfold dispatch. destruct (run_sync p (ui w)) as [s' t].
  match goal with |- camera_move _ (commit ?b ?w1) =>
    destruct (commit_camera b w1) as [[Heq Hc] | (Heq & Hs & Hg & Hst)] end.
  - rewrite Hc. apply cam_same; simpl; auto.
    apply Bool.eqb_prop in Heq. simpl in Heq.
    right. unfold videoRef_current; simpl. rewrite Heq. reflexivity.
  - simpl in Hst. destruct (streamRef w) as [stream|] eqn:Hw.
    + apply (cam_release _ _ stream); auto.
    + apply cam_same; auto; try congruence.
Qed.

Lemma on_stream_camera w : camera_move w (on_stream w).
Proof.
  unfold on_stream. destruct (videoRef_current w) eqn:Hv.
  - apply cam_store; auto.
  - apply cam_drop; auto.
Qed.

Lemma take_task_camera i w w' : camera_move (take_task i w) w' -> camera_move w w'.
Proof.
  intros [Hs Hg Hst Hv | stream Hw Hs Hg Hst | Hv Hs Hg Hst Hm Ho | Hv Hs Hg Hst];
    [ apply cam_same | apply (cam_release _ _ stream) | apply cam_store | apply cam_drop ];
    auto.
Qed.

(** Every step is one of the four camera moves. *)
Lemma step_camera e w : camera_move w (step e w).
Proof.
  assert (Hsame : camera_move w w) by (apply cam_same; auto).
  destruct e; simpl; unfold user_event;
    try (destruct (mounted w) eqn:Hm; [apply dispatch_camera | exact Hsame]).
  - destruct (nth_error (pending w) i) as [[| |]|]; auto.
    apply take_task_camera with (i := i), dispatch_camera.
  - destruct (nth_error (pending w) i) as [[| |]|]; auto.
    apply take_task_camera with (i := i), dispatch_camera.
  - destruct (nth_error (pending w) i) as [[| |]|]; auto.
    destruct o; apply take_task_camera with (i := i);
      [apply on_stream_camera | apply dispatch_camera].
  - destruct (mounted w) eqn:Hm; [|exact Hsame].
    unfold effect_cleanup. destruct (streamRef w) as [stream|] eqn:Hw; simpl.
    + apply (cam_release _ _ stream); auto.
    + apply cam_same; auto.
Qed.

(** ** The camera stream *)

Lemma camera_move_ok w w' : camera_ok w -> camera_move w w' -> camera_ok w'.
Proof.
  intros (Hnd & Hlt & Href) [Hs Hg Hst Hv | stream Hw Hs Hg Hst | Hv Hs Hg Hst Hm Ho | Hv Hs Hg Hst];
    unfold camera_ok; rewrite Hs, Hg, Hst; (split; [|split]).
  - exact Hnd.
  - exact Hlt.
  - intros x Hx. destruct (Href _ Hx) as (H1 & H2 & H3). repeat split; auto.
    destruct Hv as [Hv | Hv]; congruence.
  - destruct (Href _ Hw) as (H1 & H2 & H3).
    apply NoDup_app; [exact Hnd | repeat constructor; simpl; tauto |].
    intros x Hx [<- | []]. exact (H2 Hx).
  - destruct (Href _ Hw) as (H1 & H2 & H3).
    intros x Hx. apply in_app_or in Hx as [Hx | [<- | []]]; auto.
  - discriminate.
  - exact Hnd.
  - intros x Hx. specialize (Hlt x Hx). lia.
  - intros x Hx. injection Hx as <-. repeat split.
    + lia.
    + intros Hin. specialize (Hlt _ Hin). lia.
    + unfold videoRef_current in *. rewrite Hm, Ho. exact Hv.
  - exact Hnd.
  - intros x Hx. specialize (Hlt x Hx). lia.
  - intros x Hx. destruct (Href _ Hx) as (H1 & H2 & H3). congruence.
Qed.

Lemma camera_ok_initial : camera_ok initialWorld.
Proof.
  repeat split; simpl; try constructor; try contradiction; discriminate.
Qed.

(** In every session no stream is stopped twice, and a stream is held in
    [streamRef] only while the camera is open. *)
Lemma camera_ok_reachable evs : camera_ok (run evs initialWorld).
Proof.
  apply run_invariant; [|exact camera_ok_initial].
  intros e w Hw. exact (camera_move_ok _ _ Hw (step_camera e w)).
Qed.

(** A stream that is neither held nor stopped stays that way. *)
Lemma forgotten_stream_stays stream evs w :
  stream < granted w -> streamRef w <> Some stream -> ~ In stream (stopped w) ->
  ~ In stream (stopped (run evs w)).
Proof.
  intros Hg Hs Hst.
  enough (H : stream < granted (run evs w) /\ streamRef (run evs w) <> Some stream
              /\ ~ In stream (stopped (run evs w))) by tauto.
  apply (run_invariant
           (fun w => stream < granted w /\ streamRef w <> Some stream /\ ~ In stream (stopped w)));
    [|tauto].
  clear. intros e w (Hg & Hs & Hst).
  destruct (step_camera e w) as [Hs' Hg' Hst' _ | held Hw Hs' Hg' Hst' | _ Hs' Hg' Hst' _ _ | _ Hs' Hg' Hst'];
    rewrite Hs', Hg', Hst'; repeat split; auto; try lia; try discriminate.
  - intros Hin. apply in_app_or in Hin as [Hin | [<- | []]]; [auto | congruence].
  - intros Heq. injection Heq as Heq. lia.
Qed.

(** Leaving the open camera releases the stream that [streamRef] holds:
    Cancel, a successful snap and unmounting all stop it and clear the
    ref. *)
Lemma exit_releases_held_stream w stream e :
  camera_ok w ->
  streamRef w = Some stream ->
  (e = CancelClick \/ e = Unmount \/
   exists video canvas now, e = SnapClick video canvas now /\ getContext2d canvas = true) ->
  streamRef (step e w) = None /\ stopped (step e w) = (stopped w ++ [stream])%list.
Proof.
  intros (_ & _ & Href) Hw He. destruct (Href _ Hw) as (_ & _ & Hv).
  unfold videoRef_current in Hv. apply andb_true_iff in Hv as [Hm Ho].
  destruct He as [-> | [-> | (video & canvas & now & -> & Hctx)]]; simpl;
    unfold user_event, videoRef_current, canvasRef_current; rewrite Hm, ?Ho; simpl.
  - unfold dispatch, commit, effect_body, effect_cleanup; simpl.
    rewrite Hm, Ho, Hw. simpl. auto.
  - unfold effect_cleanup. rewrite Hw. simpl. auto.
  - unfold handleTakePhoto. rewrite Hctx.
    unfold dispatch, commit, effect_body, effect_cleanup; simpl.
    rewrite Hm, Ho, Hw. simpl. auto.
Qed.

(** C8, where the code misses it.  The user opens the camera and cancels
    before [getUserMedia] has answered; the host then grants the stream.
    The video element is gone, so the [then] callback drops the stream:
    it is live, nothing holds it, and no later event ever stops it. *)
Theorem stream_granted_after_cancel_is_never_stopped :
  let w := run [CameraClick; CancelClick; MediaSettled 0 (Resolved tt)] initialWorld in
  granted w = 1 /\ streamRef w = None /\ stopped w = [] /\
  forall evs, ~ In 0 (stopped (run evs w)).
Proof.
  cbv zeta. repeat split.
  intros evs. apply forgotten_stream_stays; simpl.
  - lia.
  - discriminate.
  - tauto.
Qed.

(** The same slip lets a second stream be taken while the first is held:
    after open, cancel, open, both pending requests are granted in turn,
    the second overwrites the first in [streamRef], and only the second
    is ever stopped. *)
Lemma second_stream_overwrites_first :
  let w := run [CameraClick; CancelClick; CameraClick;
                MediaSettled 0 (Resolved tt); MediaSettled 0 (Resolved tt)] initialWorld in
  granted w = 2 /\ streamRef w = Some 1 /\ stopped w = [] /\
  stopped (run [CancelClick; Unmount] w) = [1] /\
  forall evs, ~ In 0 (stopped (run evs w)).
Proof.
  cbv zeta. repeat split.
  intros evs. apply forgotten_stream_stays; simpl.
  - lia.
  - discriminate.
  - tauto.
Qed.

(** When the grant arrives while the camera is still open, the stream is
    stopped exactly once on the way out. *)
Lemma stream_granted_while_open_is_stopped_once :
  stopped (run [CameraClick; MediaSettled 0 (Resolved tt); CancelClick; Unmount] initialWorld) = [0]
  /\ stopped (run [CameraClick; MediaSettled 0 (Resolved tt); Unmount] initialWorld) = [0]
  /\ stopped (run [CameraClick; MediaSettled 0 (Resolved tt);
                   SnapClick webcam_frame jpeg_canvas 1730600000000; Unmount] initialWorld) = [0].
Proof. repeat split. Qed.

(** ** The edited image *)

Lemma edits_ok_weaken (P : string -> Prop) p :
  edits_ok P p -> forall Q : string -> Prop, (forall u, P u -> Q u) -> edits_ok Q p.
Proof.
  induction 1 as [P a | P e | P a k Ha Hk IH | P file k Hk IH | P img mime ins k Hk IH];
    intros Q HPQ.
  - apply ok_ret.
  - apply ok_throw.
  - apply ok_act; [|apply IH, HPQ].
    destruct a as [| [u|] | | | |]; simpl in *; auto.
  - apply ok_read. intros o. apply IH, HPQ.
  - apply ok_edit. intros o. apply (IH o). intros u [Hu | Hu]; auto.
Qed.

Lemma task_ok_weaken (P Q : string -> Prop) t :
  (forall u, P u -> Q u) -> task_ok P t -> task_ok Q t.
Proof.
  intros HPQ. destruct t as [file k | img mime ins k |]; simpl; auto.
  - intros Hk o. apply (edits_ok_weaken _ _ (Hk o)), HPQ.
  - intros Hk o. apply (edits_ok_weaken _ _ (Hk o)). intros u [Hu | Hu]; auto.
Qed.

Lemma world_ok_weaken (P Q : string -> Prop) w :
  (forall u, P u -> Q u) -> world_ok P w -> world_ok Q w.
Proof.
  intros HPQ [Hui Hp]. split.
  - intros u Hu. apply HPQ, Hui, Hu.
  - eapply Forall_impl; [|exact Hp]. intros t. apply task_ok_weaken, HPQ.
Qed.

Ltac edits_step :=
  first [ apply ok_ret | apply ok_throw
        | apply ok_act; [exact I |]
        | apply ok_read; intros [?|?]; simpl
        | apply ok_edit; intros [[?|]|[?| |]]; simpl ].

Lemma handleFileChange_edits_ok allowed files : edits_ok allowed (handleFileChange files).
Proof.
  unfold handleFileChange.
  destruct (first_file files) as [file|]; [|apply ok_ret].
  destruct (startsWith (File.type file) "image/"); simpl; repeat edits_step.
Qed.

Lemma handleTakePhoto_edits_ok allowed video canvas now :
  edits_ok allowed (handleTakePhoto video canvas now).
Proof.
  unfold handleTakePhoto.
  destruct video as [v|], canvas as [c|]; try apply ok_ret.
  destruct (getContext2d c); simpl; repeat edits_step.
Qed.

Lemma handleGenerateClick_edits_ok allowed s : edits_ok allowed (handleGenerateClick s).
Proof.
  unfold handleGenerateClick.
  destruct (originalImage s) as [img|]; [destruct (String.eqb (prompt s) "")|];
    simpl; try (repeat edits_step; fail).
  do 3 (apply ok_act; [exact I|]).
  apply ok_edit. intros [[p|]|[m| |]]; simpl; try (repeat edits_step; fail).
  destruct (String.eqb_spec p ""); simpl; [repeat edits_step|].
  apply ok_act; [|repeat edits_step].
  right. exists p. auto.
Qed.

Lemma run_sync_ok allowed p :
  edits_ok allowed p ->
  forall s, edited_ok allowed s ->
    edited_ok allowed (fst (run_sync p s)) /\
    (forall t, snd (run_sync p s) = Some t -> task_ok allowed t).
Proof.
  induction 1 as [P a | P e | P a k Ha Hk IH | P file k Hk IH | P img mime ins k Hk IH];
    intros s Hs; simpl.
  - split; [exact Hs | discriminate].
  - split; [exact Hs | discriminate].
  - apply IH. intros u Hu.
    destruct a as [| [v|] | | | |]; simpl in *; auto; congruence.
  - split; [exact Hs |]. intros t [= <-]. exact Hk.
  - split; [exact Hs |]. intros t [= <-]. exact Hk.
Qed.

Lemma remove_nth_Forall {A} (P : A -> Prop) i l : Forall P l -> Forall P (remove_nth i l).
Proof.
  intros H; revert i; induction H as [|x l Hx Hl IH]; intros [|i]; simpl; auto.
Qed.

Lemma commit_ok allowed was w : world_ok allowed w -> world_ok allowed (commit was w).
Proof.
  intros [Hui Hp]. split.
  - rewrite commit_ui. exact Hui.
  - destruct (commit_pending was w) as [-> | ->]; [exact Hp |].
    apply Forall_app; split; [exact Hp | repeat constructor].
Qed.

Lemma dispatch_ok allowed p w :
  edits_ok allowed p -> world_ok allowed w -> world_ok allowed (dispatch p w).
Proof.
  intros Hp [Hui Hpend].
  destruct (run_sync_ok _ _ Hp _ Hui) as [Hs Ht].
  unfold dispatch. destruct (run_sync p (ui w)) as [s' t]. simpl in Hs, Ht.
  apply commit_ok. split; simpl.
  - destruct (mounted w); assumption.
  - apply Forall_app; split; [exact Hpend |].
    destruct t as [t|]; repeat constructor. apply Ht. reflexivity.
Qed.

Lemma take_task_ok allowed i w : world_ok allowed w -> world_ok allowed (take_task i w).
Proof.
  intros [Hui Hp]. split; [exact Hui | simpl; apply remove_nth_Forall, Hp].
Qed.

Lemma returned_by_snoc evs e u : returned_by evs u -> returned_by (evs ++ [e]) u.
Proof.
  intros (o & (before & after & i & img & mime & ins & k & -> & Hi) & Hu).
  exists o. split; [|exact Hu].
  exists before, (after ++ [e])%list, i, img, mime, ins, k.
  split; [|exact Hi]. rewrite <- app_assoc. reflexivity.
Qed.

(** Every step keeps the invariant, from allowed values [P] to allowed
    values [Q], when [Q] admits what [P] admits and the wrapped payload
    of the call the step settles, if it settles one. *)
Lemma step_ok (P Q : string -> Prop) e w :
  (forall u, P u -> Q u) ->
  (forall i o img mime ins k u,
     e = EditSettled i o ->
     nth_error (pending w) i = Some (EditTask img mime ins k) ->
     payload_url o u -> Q u) ->
  world_ok P w -> world_ok Q (step e w).
Proof.
  intros HPQ Hsettle Hw.
  assert (Hw' : world_ok Q w) by (apply (world_ok_weaken P); assumption).
  destruct e; simpl; unfold user_event;
    try (destruct (mounted w); [apply dispatch_ok; [|exact Hw'] | exact Hw']).
  - apply handleFileChange_edits_ok.
  - repeat edits_step.
  - repeat edits_step.
  - repeat edits_step.
  - apply handleTakePhoto_edits_ok.
  - apply handleGenerateClick_edits_ok.
  - destruct (nth_error (pending w) i) as [[file k | |]|] eqn:Hi; auto.
    apply dispatch_ok; [|apply take_task_ok, Hw'].
    destruct Hw' as [_ Hp]. rewrite Forall_forall in Hp.
    exact (Hp _ (nth_error_In _ _ Hi) o).
  - destruct (nth_error (pending w) i) as [[| img mime ins k |]|] eqn:Hi; auto.
    apply dispatch_ok; [|apply take_task_ok, Hw'].
    destruct Hw as [_ Hp]. rewrite Forall_forall in Hp.
    apply (edits_ok_weaken _ _ (Hp _ (nth_error_In _ _ Hi) o)).
    intros u [Hu | Hu]; [apply HPQ, Hu |].
    exact (Hsettle i o img mime ins k u eq_refl Hi Hu).
  - destruct (nth_error (pending w) i) as [[| |]|] eqn:Hi; auto.
    destruct o as [v|err].
    + apply (take_task_ok _ i) in Hw'. destruct Hw' as [Hui Hp].
      unfold on_stream. destruct (videoRef_current (take_task i w)); split; assumption.
    + apply dispatch_ok; [repeat edits_step | apply take_task_ok, Hw'].
  - destruct (mounted w); [|exact Hw'].
    destruct Hw' as [Hui Hp]. unfold effect_cleanup.
    destruct (streamRef w); split; assumption.
Qed.

Lemma run_ok evs : world_ok (returned_by evs) (run evs initialWorld).
Proof.
  induction evs as [|e evs IH] using rev_ind.
  - split; [intros u; discriminate | constructor].
  - rewrite run_snoc. apply (step_ok (returned_by evs)); [apply returned_by_snoc | | exact IH].
    intros i o img mime ins k u -> Hi Hu.
    exists o. split; [|exact Hu].
    exists evs, [], i, img, mime, ins, k. auto.
Qed.

Lemma startsWith_app p s : startsWith (p ++ s) p = true.
Proof.
  unfold startsWith. induction p as [|c p IH]; simpl.
  - destruct s; reflexivity.
  - destruct (ascii_dec c c); [exact IH | congruence].
Qed.

(** C10. In every session, after every event, an edited image that is
    present is the text "data:image/png;base64," followed by a non-empty
    payload that a pending remote edit call of the session resolved with;
    the type of the original image plays no part. *)
Theorem editedImage_is_png_data_url evs u :
  editedImage (ui (run evs initialWorld)) = Some u ->
  startsWith u "data:image/png;base64," = true /\
  exists p,
    edit_settled (Resolved (Some p)) evs /\ p <> "" /\
    u = "data:image/png;base64," ++ p.
Proof.
  intros Hu.
  destruct (run_ok evs) as [Hui _].
  destruct (Hui u Hu) as (o & Ho & p & -> & Hp & ->).
  split.
  - apply (startsWith_app png_prefix p).
  - exists p. auto.
Qed.

Lemma editedImage_is_png_data_url_witness :
  startsWith "data:image/png;base64,QUJD" "data:image/png;base64," = true /\
  exists p,
    edit_settled (Resolved (Some p))
       [FileChange (Some [File.mk "image/gif" "old.gif"]);
        ReadSettled 0 (Resolved "data:image/gif;base64,R0lGODlh");
        GenerateClick;
        EditSettled 0 (Resolved (Some "QUJD"))] /\
    p <> "" /\
    "data:image/png;base64,QUJD" = "data:image/png;base64," ++ p.
Proof.
  apply (editedImage_is_png_data_url
           [FileChange (Some [File.mk "image/gif" "old.gif"]);
            ReadSettled 0 (Resolved "data:image/gif;base64,R0lGODlh");
            GenerateClick;
            EditSettled 0 (Resolved (Some "QUJD"))]
           "data:image/png;base64,QUJD").
  reflexivity.
Defined.

(** In the event loop a change event without a file changes nothing and
    schedules nothing. *)
Lemma step_FileChange_no_file files w :
  first_file files = None -> step (FileChange files) w = w.
Proof.
  intros Hf. destruct w as [u m sr so g st pe].
  simpl. unfold user_event, dispatch, handleFileChange. rewrite Hf. simpl.
  destruct m; [|reflexivity].
  unfold commit; simpl. rewrite Bool.eqb_reflx, app_nil_r. reflexivity.
Qed.

(** X16. The loading flag in the event loop: a click past the guard
    raises it and leaves one more pending [editImage] call, carrying the
    image and the prompt of that moment; whenever that call settles on
    the mounted component, whatever happened in between and however it
    settles, the flag is lowered. *)
Lemma loading_until_settled w img :
  mounted w = true ->
  originalImage (ui w) = Some img ->
  prompt (ui w) <> "" ->
  exists k,
    isLoading (ui (step GenerateClick w)) = true /\
    pending (step GenerateClick w) =
      (pending w ++ [EditTask (base64 img) (mimeType img) (prompt (ui w)) k])%list /\
    forall w' i o,
      mounted w' = true ->
      nth_error (pending w') i = Some (EditTask (base64 img) (mimeType img) (prompt (ui w)) k) ->
      isLoading (ui (step (EditSettled i o) w')) = false.
Proof.
  intros Hm Himg Hprompt. simpl. unfold user_event. rewrite Hm.
  rewrite (handleGenerateClick_past_guard _ _ Himg Hprompt).
  eexists. split; [|split].
  - rewrite dispatch_ui, Hm. reflexivity.
  - unfold dispatch; simpl. unfold commit; simpl. rewrite Hm; simpl.
    rewrite Bool.eqb_reflx. reflexivity.
  - intros w' i o Hm' Hi. simpl. rewrite Hi, dispatch_ui. simpl. rewrite Hm'.
    destruct o as [[p|]|[m| |]]; simpl; try reflexivity.
    destruct (String.eqb p ""); reflexivity.
Qed.

(** ** More about the event loop *)

Lemma commit_pending_exact was w :
  pending (commit was w) =
    (pending w ++ if negb was && isCameraOpen (ui w) then [MediaTask] else [])%list.
Proof.
  unfold commit, effect_body, effect_cleanup.
  destruct was, (isCameraOpen (ui w)) eqn:Ho; simpl;
    try (rewrite app_nil_r; reflexivity);
    destruct (streamRef w); simpl; rewrite Ho; simpl; rewrite ?app_nil_r; reflexivity.
Qed.

(** What a dispatch leaves pending: what was pending, the promise the
    program suspended on, and a camera request when the camera opened. *)
Lemma dispatch_pending p w :
  pending (dispatch p w) =
    (pending w ++ new_tasks (snd (run_sync p (ui w)))
     ++ if negb (isCameraOpen (ui w)) && isCameraOpen (ui (dispatch p w))
        then [MediaTask] else [])%list.
Proof.
  rewrite dispatch_ui. unfold dispatch.
  destruct (run_sync p (ui w)) as [s' t]. rewrite commit_pending_exact. simpl.
  rewrite <- app_assoc. destruct t; reflexivity.
Qed.

Lemma edits_in_flight_app l1 l2 :
  edits_in_flight (l1 ++ l2) = edits_in_flight l1 + edits_in_flight l2.
Proof.
  induction l1 as [|[| |] l1 IH]; simpl; auto.
Qed.

Lemma media_in_flight_app l1 l2 :
  media_in_flight (l1 ++ l2) = media_in_flight l1 + media_in_flight l2.
Proof.
  induction l1 as [|[| |] l1 IH]; simpl; auto.
Qed.

Lemma edits_in_flight_remove i l t :
  nth_error l i = Some t ->
  edits_in_flight l =
    edits_in_flight (remove_nth i l) + match t with EditTask _ _ _ _ => 1 | _ => 0 end.
Proof.
  revert i; induction l as [|x l IH]; intros [|i] Hi; simpl in *; try discriminate.
  - injection Hi as ->. destruct t; lia.
  - rewrite (IH _ Hi). destruct x; lia.
Qed.

Lemma media_in_flight_remove i l t :
  nth_error l i = Some t ->
  media_in_flight l =
    media_in_flight (remove_nth i l) + match t with MediaTask => 1 | _ => 0 end.
Proof.
  revert i; induction l as [|x l IH]; intros [|i] Hi; simpl in *; try discriminate.
  - injection Hi as ->. destruct t; lia.
  - rewrite (IH _ Hi). destruct x; lia.
Qed.

(** *** The synchronous part of each handler *)

Lemma error_prefixed_not_empty m : error_prefix ++ m <> "".
Proof. discriminate. Qed.

Lemma handleFileChange_sync files s :
  let r := run_sync (handleFileChange files) s in
  prompt (fst r) = prompt s /\ isLoading (fst r) = isLoading s /\
  isCameraOpen (fst r) = isCameraOpen s /\ originalImage (fst r) = originalImage s /\
  (error_shown_ok s -> error_shown_ok (fst r)) /\
  edits_in_flight (new_tasks (snd r)) = 0 /\
  Forall task_shape (new_tasks (snd r)).
Proof.
  unfold handleFileChange.
  destruct (first_file files) as [file|]; [|simpl; repeat split; auto].
  destruct (startsWith (File.type file) "image/"); simpl.
  - repeat split; auto.
    + intros _ m [=].
    + apply Forall_cons; [|apply Forall_nil].
      intros [url|e] st; simpl; repeat split; auto.
      intros _ m [= <-]. discriminate.
  - repeat split; auto. intros _ m [= <-]. discriminate.
Qed.

Lemma handleTakePhoto_sync video canvas now s :
  let r := run_sync (handleTakePhoto video canvas now) s in
  snd r = None /\ prompt (fst r) = prompt s /\ isLoading (fst r) = isLoading s /\
  (error_shown_ok s -> error_shown_ok (fst r)).
Proof.
  unfold handleTakePhoto.
  destruct video as [v|], canvas as [c|]; simpl; auto.
  destruct (getContext2d c); simpl; repeat split; auto.
  intros _ m [=].
Qed.

Lemma handleGenerateClick_sync s0 s :
  let r := run_sync (handleGenerateClick s0) s in
  prompt (fst r) = prompt s /\ isCameraOpen (fst r) = isCameraOpen s /\
  originalImage (fst r) = originalImage s /\
  (error_shown_ok s -> error_shown_ok (fst r)) /\
  Forall task_shape (new_tasks (snd r)).
Proof.
  unfold handleGenerateClick.
  destruct (originalImage s0) as [img|]; [destruct (String.eqb (prompt s0) "")|]; simpl;
    try (repeat split; auto; intros _ m [= <-]; discriminate).
  repeat split; auto.
  - intros _ m [=].
  - apply Forall_cons; [|apply Forall_nil].
    intros [[p|]|[m| |]] st; simpl;
      try destruct (String.eqb p ""); simpl; repeat split; auto;
      intros _ m' [= <-]; discriminate.
Qed.

(** The guard of [handleGenerateClick] decides whether a call is made. *)
Lemma handleGenerateClick_flight s0 s :
  let r := run_sync (handleGenerateClick s0) s in
  (originalImage s0 <> None /\ prompt s0 <> "" ->
     isLoading (fst r) = true /\ edits_in_flight (new_tasks (snd r)) = 1) /\
  (originalImage s0 = None \/ prompt s0 = "" ->
     isLoading (fst r) = isLoading s /\ snd r = None).
Proof.
  unfold handleGenerateClick. split.
  - intros [Himg Hprompt]. destruct (originalImage s0); [|congruence].
    rewrite (proj2 (String.eqb_neq _ _) Hprompt). simpl. auto.
  - intros [Himg | Hprompt].
    + rewrite Himg. simpl. auto.
    + rewrite Hprompt. destruct (originalImage s0); simpl; auto.
Qed.

(** Suspended handlers keep their shape along every session. *)
Lemma step_shapes e w :
  Forall task_shape (pending w) -> Forall task_shape (pending (step e w)).
Proof.
  intros Hw.
  assert (Hdisp : forall p w0, Forall task_shape (pending w0) ->
            Forall task_shape (new_tasks (snd (run_sync p (ui w0)))) ->
            Forall task_shape (pending (dispatch p w0))).
  { intros p w0 H0 Hp. rewrite dispatch_pending.
    repeat (apply Forall_app; split); auto.
    destruct (_ && _); repeat constructor. }
  assert (Htake : forall i, Forall task_shape (pending (take_task i w))).
  { intros i. simpl. apply remove_nth_Forall, Hw. }
  destruct e; simpl; unfold user_event;
    try (destruct (mounted w); [apply Hdisp; [exact Hw|] | exact Hw]).
  - apply handleFileChange_sync.
  - constructor.
  - constructor.
  - constructor.
  - destruct (handleTakePhoto_sync
                (if videoRef_current w then Some video else None)
                (if canvasRef_current w then Some canvas else None) now (ui w)) as [-> _].
    constructor.
  - apply handleGenerateClick_sync.
  - destruct (nth_error (pending w) i) as [[file k | |]|] eqn:Hi; auto.
    apply Hdisp; [apply Htake|].
    rewrite Forall_forall in Hw.
    destruct (Hw _ (nth_error_In _ _ Hi) o (ui (take_task i w))) as [-> _]. constructor.
  - destruct (nth_error (pending w) i) as [[| img mime ins k |]|] eqn:Hi; auto.
    apply Hdisp; [apply Htake|].
    rewrite Forall_forall in Hw.
    destruct (Hw _ (nth_error_In _ _ Hi) o (ui (take_task i w))) as [-> _]. constructor.
  - destruct (nth_error (pending w) i) as [[| |]|] eqn:Hi; auto.
    destruct o as [v|err].
    + unfold on_stream. destruct (videoRef_current (take_task i w)); apply Htake.
    + apply Hdisp; [apply Htake | constructor].
  - destruct (mounted w); [|exact Hw].
    unfold effect_cleanup. destruct (streamRef w); exact Hw.
Qed.

Lemma shapes_reachable evs : Forall task_shape (pending (run evs initialWorld)).
Proof.
  apply (run_invariant (fun w => Forall task_shape (pending w))).
  - intros e w. apply step_shapes.
  - constructor.
Qed.

(** ** The camera effect, further *)

(** X1. In every session no stream is stopped twice, only granted streams
    are stopped, and a stream sits in [streamRef] only while the component
    is mounted with the camera open; such a stream has not been stopped. *)
Theorem streams_stopped_at_most_once evs :
  let w := run evs initialWorld in
  NoDup (stopped w) /\
  (forall stream, In stream (stopped w) -> stream < granted w) /\
  (forall stream, streamRef w = Some stream ->
     stream < granted w /\ ~ In stream (stopped w) /\
     mounted w = true /\ isCameraOpen (ui w) = true).
Proof.
  cbv zeta. destruct (camera_ok_reachable evs) as (Hnd & Hlt & Href).
  repeat split; auto; destruct (Href _ H) as (H1 & H2 & H3); auto;
    unfold videoRef_current in H3; apply andb_true_iff in H3; tauto.
Qed.

(** X2. Whenever a session has left a stream in [streamRef], each way
    out of the open camera (Cancel, unmounting, a snap that obtains a 2D
    context) stops that stream, once, and empties the ref. *)
Theorem leaving_camera_releases_stream evs stream e :
  streamRef (run evs initialWorld) = Some stream ->
  (e = CancelClick \/ e = Unmount \/
   exists video canvas now, e = SnapClick video canvas now /\ getContext2d canvas = true) ->
  streamRef (step e (run evs initialWorld)) = None /\
  stopped (step e (run evs initialWorld)) = (stopped (run evs initialWorld) ++ [stream])%list.
Proof.
  intros Hs He.
  exact (exit_releases_held_stream _ stream e (camera_ok_reachable evs) Hs He).
Qed.

Lemma leaving_camera_releases_stream_witness :
  streamRef (run [CameraClick; MediaSettled 0 (Resolved tt)] initialWorld) = Some 0 /\
  streamRef (run [CameraClick; MediaSettled 0 (Resolved tt); CancelClick] initialWorld) = None /\
  stopped (run [CameraClick; MediaSettled 0 (Resolved tt); CancelClick] initialWorld) = [0].
Proof.
  split; [reflexivity|].
  apply (leaving_camera_releases_stream [CameraClick; MediaSettled 0 (Resolved tt)] 0 CancelClick).
  - reflexivity.
  - left; reflexivity.
Defined.

Lemma closed_camera_holds_no_stream w :
  camera_ok w -> isCameraOpen (ui w) = false -> streamRef w = None.
Proof.
  intros (_ & _ & Href) Ho. destruct (streamRef w) as [stream|] eqn:Hs; [|reflexivity].
  destruct (Href _ eq_refl) as (_ & _ & Hv).
  unfold videoRef_current in Hv. rewrite Ho, andb_false_r in Hv. discriminate.
Qed.

(** X3. A click on the Camera button changes no state but
    [isCameraOpen], which becomes true.  When the camera was closed it
    starts exactly one [getUserMedia] request; when it was open already
    it starts none.  No stream is touched either way. *)
Theorem camera_click_requests_one_stream evs :
  mounted (run evs initialWorld) = true ->
  ui (step CameraClick (run evs initialWorld)) =
    apply_action (SetIsCameraOpen true) (ui (run evs initialWorld)) /\
  pending (step CameraClick (run evs initialWorld)) =
    (pending (run evs initialWorld)
     ++ if isCameraOpen (ui (run evs initialWorld)) then [] else [MediaTask])%list /\
  streamRef (step CameraClick (run evs initialWorld)) = streamRef (run evs initialWorld) /\
  granted (step CameraClick (run evs initialWorld)) = granted (run evs initialWorld) /\
  stopped (step CameraClick (run evs initialWorld)) = stopped (run evs initialWorld).
Proof.
  pose proof (camera_ok_reachable evs) as Hok.
  generalize dependent (run evs initialWorld). intros w Hok Hm.
  simpl. unfold user_event. rewrite Hm.
  split; [rewrite dispatch_ui, Hm; reflexivity|].
  split.
  { rewrite dispatch_pending, dispatch_ui, Hm. simpl.
    destruct (isCameraOpen (ui w)); reflexivity. }
  unfold dispatch, commit, effect_body, effect_cleanup; simpl. rewrite Hm; simpl.
  destruct (isCameraOpen (ui w)) eqn:Ho; simpl; [auto|].
  rewrite (closed_camera_holds_no_stream _ Hok Ho). simpl. auto.
Qed.

Lemma camera_click_requests_one_stream_witness :
  pending (step CameraClick (run [CameraClick; CancelClick] initialWorld)) =
    [MediaTask; MediaTask] /\
  pending (step CameraClick (run [CameraClick] initialWorld)) = [MediaTask].
Proof.
  split.
  - apply (camera_click_requests_one_stream [CameraClick; CancelClick] eq_refl).
  - apply (camera_click_requests_one_stream [CameraClick] eq_refl).
Defined.

(** X4. When a pending [getUserMedia] request is rejected, whether it
    belongs to the present opening of the camera or to an earlier one,
    the error becomes the camera message and the camera is closed; the
    images, the prompt and the loading flag are kept, a stream held in
    [streamRef] is stopped, and no new request is started. *)
Theorem camera_access_failure evs i e :
  mounted (run evs initialWorld) = true ->
  nth_error (pending (run evs initialWorld)) i = Some MediaTask ->
  ui (step (MediaSettled i (Rejected e)) (run evs initialWorld)) =
    {| originalImage := originalImage (ui (run evs initialWorld));
       editedImage := editedImage (ui (run evs initialWorld));
       prompt := prompt (ui (run evs initialWorld));
       isLoading := isLoading (ui (run evs initialWorld));
       error := Some camera_message;
       isCameraOpen := false |} /\
  streamRef (step (MediaSettled i (Rejected e)) (run evs initialWorld)) = None /\
  pending (step (MediaSettled i (Rejected e)) (run evs initialWorld)) =
    remove_nth i (pending (run evs initialWorld)) /\
  granted (step (MediaSettled i (Rejected e)) (run evs initialWorld)) =
    granted (run evs initialWorld) /\
  stopped (step (MediaSettled i (Rejected e)) (run evs initialWorld)) =
    (stopped (run evs initialWorld)
     ++ match streamRef (run evs initialWorld) with
        | Some stream => [stream]
        | None => []
        end)%list.
Proof.
  pose proof (camera_ok_reachable evs) as Hok.
  generalize dependent (run evs initialWorld). intros w Hok Hm Hi.
  simpl. rewrite Hi.
  split; [rewrite dispatch_ui; simpl; rewrite Hm; reflexivity|].
  unfold dispatch, commit, effect_body, effect_cleanup; simpl. rewrite Hm; simpl.
  destruct (isCameraOpen (ui w)) eqn:Ho; simpl.
  - destruct (streamRef w); simpl; rewrite ?app_nil_r; auto.
  - rewrite (closed_camera_holds_no_stream _ Hok Ho). simpl. rewrite !app_nil_r. auto.
Qed.

Lemma camera_access_failure_witness :
  ui (run [CameraClick; CancelClick; CameraClick;
           MediaSettled 0 (Rejected (ErrorObj "NotAllowedError"))] initialWorld) =
    {| originalImage := None; editedImage := None; prompt := initial_prompt;
       isLoading := false; error := Some camera_message; isCameraOpen := false |} /\
  pending (run [CameraClick; CancelClick; CameraClick;
                MediaSettled 0 (Rejected (ErrorObj "NotAllowedError"))] initialWorld) =
    [MediaTask].
Proof.
  pose proof (camera_access_failure [CameraClick; CancelClick; CameraClick] 0
                (ErrorObj "NotAllowedError") eq_refl eq_refl) as (Hui & _ & Hp & _).
  split; [exact Hui | exact Hp].
Defined.

Lemma run_sync_no_media p s : media_in_flight (new_tasks (snd (run_sync p s))) = 0.
Proof.
  revert s; induction p as [a|e|a k IH|file k IH|img mime ins k IH]; intros s; simpl; auto.
Qed.

Lemma dispatch_granted p w : granted (dispatch p w) = granted w.
Proof.
  destruct (dispatch_camera p w) as [_ Hg _ _ | stream _ _ Hg _ | Hv Hs Hg _ _ _ | Hv Hs Hg _];
    try exact Hg;
    unfold dispatch, commit, effect_body, effect_cleanup in *;
    destruct (run_sync p (ui w)) as [s' t]; simpl in *;
    destruct (Bool.eqb _ _); simpl in *; try lia;
    destruct (streamRef w); simpl in *;
    destruct (isCameraOpen (if mounted w then s' else ui w)); simpl in *; lia.
Qed.

(** While the camera is open no step adds a [getUserMedia] request. *)
Lemma step_media_open e w :
  isCameraOpen (ui w) = true ->
  media_in_flight (pending (step e w)) <= media_in_flight (pending w).
Proof.
  intros Ho.
  assert (Hdisp : forall p w0, isCameraOpen (ui w0) = true ->
            media_in_flight (pending (dispatch p w0)) = media_in_flight (pending w0)).
  { intros p w0 H0. rewrite dispatch_pending, H0. simpl.
    rewrite !media_in_flight_app, run_sync_no_media. simpl. lia. }
  assert (Htake : forall i, media_in_flight (pending (take_task i w))
                            <= media_in_flight (pending w)).
  { intros i. simpl. destruct (nth_error (pending w) i) as [t|] eqn:Hi.
    - rewrite (media_in_flight_remove _ _ _ Hi). lia.
    - apply nth_error_None in Hi. clear -Hi.
      revert i Hi; induction (pending w) as [|x l IH]; intros [|i] Hi; simpl in *; try lia.
      specialize (IH i). destruct x; lia. }
  destruct e; simpl; unfold user_event;
    try (destruct (mounted w); [rewrite Hdisp by exact Ho|]; lia).
  - destruct (nth_error (pending w) i) as [[| |]|]; try lia.
    rewrite Hdisp by exact Ho. apply Htake.
  - destruct (nth_error (pending w) i) as [[| |]|]; try lia.
    rewrite Hdisp by exact Ho. apply Htake.
  - destruct (nth_error (pending w) i) as [[| |]|]; try lia.
    destruct o.
    + unfold on_stream. destruct (videoRef_current (take_task i w)); apply Htake.
    + rewrite Hdisp by exact Ho. apply Htake.
  - destruct (mounted w); [|lia]. unfold effect_cleanup. destruct (streamRef w); simpl; lia.
Qed.

(** The host grants a stream only on a pending request. *)
Lemma step_grant_needs_request e w :
  media_in_flight (pending w) = 0 -> granted (step e w) = granted w.
Proof.
  intros Hm.
  destruct e; simpl; unfold user_event;
    try (destruct (mounted w); [apply dispatch_granted | reflexivity]).
  - destruct (nth_error (pending w) i) as [[| |]|]; auto.
    rewrite dispatch_granted. reflexivity.
  - destruct (nth_error (pending w) i) as [[| |]|]; auto.
    rewrite dispatch_granted. reflexivity.
  - destruct (nth_error (pending w) i) as [[| |]|] eqn:Hi; auto.
    rewrite (media_in_flight_remove _ _ _ Hi) in Hm. lia.
  - destruct (mounted w); [|reflexivity].
    unfold effect_cleanup. destruct (streamRef w); reflexivity.
Qed.

Lemma held_or_released_step stream e w :
  held_or_released stream w -> held_or_released stream (step e w).
Proof.
  intros (Hok & Hlt & Hcase).
  pose proof (camera_move_ok _ _ Hok (step_camera e w)) as Hok'.
  split; [exact Hok'|].
  destruct Hcase as [(Hs & Hc & Hm) | (Hs & Hc)].
  - destruct Hok as (_ & _ & Href). destruct (Href _ Hs) as (_ & _ & Hv).
    assert (Ho : isCameraOpen (ui w) = true).
    { unfold videoRef_current in Hv. apply andb_true_iff in Hv. tauto. }
    pose proof (step_media_open e w Ho) as Hmedia.
    pose proof (step_grant_needs_request e w Hm) as Hg.
    destruct (step_camera e w) as [Hs' Hg' Hst' _ | held Hw Hs' Hg' Hst' | _ _ Hg' _ _ _ | _ _ Hg' _];
      try lia.
    + split; [lia|]. left. rewrite Hs', Hst'. repeat split; auto. lia.
    + split; [lia|]. right. rewrite Hs', Hst'. split; [discriminate|].
      assert (held = stream) by congruence. subst held.
      rewrite count_occ_app, Hc. simpl. destruct (Nat.eq_dec stream stream); congruence.
  - destruct (step_camera e w) as [Hs' Hg' Hst' _ | held Hw Hs' Hg' Hst' | _ Hs' Hg' Hst' _ _ | _ Hs' Hg' Hst'];
      (split; [lia|]); right; rewrite Hs', Hst'.
    + auto.
    + split; [discriminate|].
      rewrite count_occ_app, Hc. simpl.
      destruct (Nat.eq_dec held stream); [congruence | reflexivity].
    + split; [intros [= Heq]; lia | exact Hc].
    + auto.
Qed.

(** X5. When the only outstanding [getUserMedia] request is granted
    while the camera is open, then at every later moment of the session
    either the stream is still held in [streamRef], with the camera open
    and the stream never stopped, or it has been stopped exactly once. *)
Theorem sole_grant_while_open_is_stopped_exactly_once evs i later :
  videoRef_current (run evs initialWorld) = true ->
  nth_error (pending (run evs initialWorld)) i = Some MediaTask ->
  media_in_flight (pending (run evs initialWorld)) = 1 ->
  let stream := granted (run evs initialWorld) in
  let w' := run later (step (MediaSettled i (Resolved tt)) (run evs initialWorld)) in
  (streamRef w' = Some stream /\ count_occ Nat.eq_dec (stopped w') stream = 0 /\
   mounted w' = true /\ isCameraOpen (ui w') = true)
  \/ (streamRef w' <> Some stream /\ count_occ Nat.eq_dec (stopped w') stream = 1).
Proof.
  pose proof (camera_ok_reachable evs) as Hok.
  generalize dependent (run evs initialWorld). intros w Hok Hv Hi Hm. cbv zeta.
  assert (H1 : held_or_released (granted w) (step (MediaSettled i (Resolved tt)) w)).
  { split; [exact (camera_move_ok _ _ Hok (step_camera _ w))|].
    simpl. rewrite Hi. unfold on_stream.
    replace (videoRef_current (take_task i w)) with true by (symmetry; exact Hv).
    simpl. split; [lia|]. left. split; [reflexivity|]. split.
    - apply count_occ_not_In. intros Hin.
      destruct Hok as (_ & Hlt & _). specialize (Hlt _ Hin). lia.
    - rewrite (media_in_flight_remove _ _ _ Hi) in Hm. lia. }
  pose proof (run_invariant (held_or_released (granted w))
                (fun e w0 => held_or_released_step (granted w) e w0) later _ H1)
    as (Hok' & _ & Hcase).
  destruct Hcase as [(Hs & Hc & _) | Hrel]; [left | right; exact Hrel].
  destruct Hok' as (_ & _ & Href). destruct (Href _ Hs) as (_ & _ & Hv').
  unfold videoRef_current in Hv'. apply andb_true_iff in Hv'. tauto.
Qed.

Lemma sole_grant_while_open_is_stopped_exactly_once_witness :
  let w' := run [FileChange (Some [red_png]); CancelClick; CameraClick; Unmount]
                (step (MediaSettled 0 (Resolved tt)) (run [CameraClick] initialWorld)) in
  (streamRef w' = Some 0 /\ count_occ Nat.eq_dec (stopped w') 0 = 0 /\
   mounted w' = true /\ isCameraOpen (ui w') = true)
  \/ (streamRef w' <> Some 0 /\ count_occ Nat.eq_dec (stopped w') 0 = 1).
Proof.
  apply (sole_grant_while_open_is_stopped_exactly_once [CameraClick] 0
           [FileChange (Some [red_png]); CancelClick; CameraClick; Unmount]);
    reflexivity.
Defined.

(** ** One edit at a time *)

Lemma dispatch_edits p w :
  edits_in_flight (pending (dispatch p w)) =
    edits_in_flight (pending w) + edits_in_flight (new_tasks (snd (run_sync p (ui w)))).
Proof.
  rewrite dispatch_pending, !edits_in_flight_app.
  destruct (_ && _); simpl; lia.
Qed.

Lemma dispatch_isLoading p w :
  isLoading (ui (dispatch p w)) =
    if mounted w then isLoading (fst (run_sync p (ui w))) else isLoading (ui w).
Proof. rewrite dispatch_ui. destruct (mounted w); reflexivity. Qed.

(** A dispatch that starts no call and leaves the flag alone. *)
Lemma flight_quiet p w :
  flight_ok w ->
  Forall task_shape (pending (dispatch p w)) ->
  edits_in_flight (new_tasks (snd (run_sync p (ui w)))) = 0 ->
  isLoading (fst (run_sync p (ui w))) = isLoading (ui w) ->
  flight_ok (dispatch p w).
Proof.
  intros (_ & Hle & Hiff) Hshape Hnew Hload.
  split; [exact Hshape|].
  rewrite dispatch_edits, Hnew, dispatch_isLoading, dispatch_mounted, Hload, Nat.add_0_r.
  split; [exact Hle|]. intros Hm. rewrite Hm. exact (Hiff Hm).
Qed.

Lemma flight_step e w : ui_allows e w = true -> flight_ok w -> flight_ok (step e w).
Proof.
  intros Hallow Hw.
  pose proof (step_shapes e w (proj1 Hw)) as Hshape.
  destruct e; simpl in *; unfold user_event in *.
  - destruct (mounted w); [|exact Hw].
    apply flight_quiet; auto; apply handleFileChange_sync.
  - destruct (mounted w); [|exact Hw]. apply flight_quiet; auto.
  - destruct (mounted w); [|exact Hw]. apply flight_quiet; auto.
  - destruct (mounted w); [|exact Hw]. apply flight_quiet; auto.
  - destruct (mounted w); [|exact Hw].
    destruct (handleTakePhoto_sync
                (if videoRef_current w then Some video else None)
                (if canvasRef_current w then Some canvas else None) now (ui w))
      as (Hnone & _ & Hload & _).
    apply flight_quiet; auto. rewrite Hnone. reflexivity.
  - destruct (mounted w) eqn:Hm; [|discriminate]. simpl in Hallow.
    apply negb_true_iff, orb_false_iff in Hallow as [Hload Himg].
    destruct Hw as (_ & Hle & Hiff). specialize (Hiff Hm).
    assert (Hzero : edits_in_flight (pending w) = 0).
    { destruct (edits_in_flight (pending w)) as [|[|n]]; [reflexivity | | lia].
      rewrite Hload in Hiff. destruct Hiff as [_ Hiff]. discriminate (Hiff eq_refl). }
    destruct (handleGenerateClick_flight (ui w) (ui w)) as [Hpass Hfail].
    split; [exact Hshape|].
    rewrite dispatch_edits, dispatch_isLoading, dispatch_mounted, Hm, Hzero.
    destruct (String.eqb_spec (prompt (ui w)) "") as [Hp | Hp].
    + destruct (Hfail (or_intror Hp)) as [-> ->]. simpl. rewrite Hload.
      split; [lia|]. intros _. split; [discriminate | lia].
    + destruct Hpass as [-> ->].
      { split; [|exact Hp]. destruct (originalImage (ui w)); [discriminate | discriminate Himg]. }
      simpl. split; [lia|]. intros _. split; auto.
  - destruct (nth_error (pending w) i) as [[file k | |]|] eqn:Hi; auto.
    destruct Hw as (Hsh & Hle & Hiff).
    rewrite Forall_forall in Hsh.
    destruct (Hsh _ (nth_error_In _ _ Hi) o (ui w)) as (Hnone & _ & Hload & _).
    pose proof (edits_in_flight_remove _ _ _ Hi) as Hrem. simpl in Hrem.
    apply flight_quiet; auto; [|simpl; rewrite Hnone; reflexivity].
    split; [apply remove_nth_Forall; rewrite Forall_forall; exact Hsh|].
    simpl. rewrite Nat.add_0_r in Hrem. rewrite <- Hrem. auto.
  - destruct (nth_error (pending w) i) as [[| img mime ins k |]|] eqn:Hi; auto.
    destruct Hw as (Hsh & Hle & Hiff).
    rewrite Forall_forall in Hsh.
    destruct (Hsh _ (nth_error_In _ _ Hi) o (ui w)) as (Hnone & _ & Hload & _).
    pose proof (edits_in_flight_remove _ _ _ Hi) as Hrem. simpl in Hrem.
    split; [exact Hshape|].
    rewrite dispatch_edits, dispatch_isLoading, dispatch_mounted. simpl.
    rewrite Hnone, Hload. simpl. split; [lia|].
    intros Hm. rewrite Hm. split; [discriminate | lia].
  - destruct (nth_error (pending w) i) as [[| |]|] eqn:Hi; auto.
    destruct Hw as (Hsh & Hle & Hiff).
    pose proof (edits_in_flight_remove _ _ _ Hi) as Hrem. simpl in Hrem.
    assert (Htake : flight_ok (take_task i w)).
    { split; [apply remove_nth_Forall, Hsh|]. simpl. rewrite Nat.add_0_r in Hrem.
      rewrite <- Hrem. auto. }
    destruct o as [v|err].
    + unfold on_stream. destruct (videoRef_current (take_task i w)); exact Htake.
    + apply flight_quiet; auto.
  - destruct (mounted w) eqn:Hm; [|exact Hw].
    destruct Hw as (Hsh & Hle & _).
    unfold effect_cleanup. destruct (streamRef w); simpl;
      (split; [exact Hsh | split; [exact Hle | discriminate]]).
Qed.

Lemma flight_run evs : forall w, flight_ok w -> offered evs w = true -> flight_ok (run evs w).
Proof.
  induction evs as [|e evs IH]; intros w Hw Hoff; simpl in *; [exact Hw|].
  apply andb_true_iff in Hoff as [He Hrest].
  apply IH; [apply flight_step; assumption | exact Hrest].
Qed.

(** X6. As long as every click goes through the rendered buttons (the
    submit button is disabled while [isLoading] holds or no image is
    loaded), at most one call of [editImage] is pending at any time, and
    while the component is mounted [isLoading] is true exactly when one
    is pending. *)
Theorem one_edit_in_flight evs :
  offered evs initialWorld = true ->
  edits_in_flight (pending (run evs initialWorld)) <= 1 /\
  (mounted (run evs initialWorld) = true ->
   (isLoading (ui (run evs initialWorld)) = true <->
    edits_in_flight (pending (run evs initialWorld)) = 1)).
Proof.
  intros Hoff.
  assert (H0 : flight_ok initialWorld).
  { split; [constructor|]. simpl. split; [lia|]. intros _. split; discriminate. }
  exact (proj2 (flight_run evs initialWorld H0 Hoff)).
Qed.

Lemma one_edit_in_flight_witness :
  offered [FileChange (Some [red_png]);
           ReadSettled 0 (Resolved "data:image/png;base64,iVBORw0KGgo=");
           GenerateClick; PromptChange "add a hat"; FileChange (Some [notes_txt])]
          initialWorld = true /\
  edits_in_flight
    (pending (run [FileChange (Some [red_png]);
                   ReadSettled 0 (Resolved "data:image/png;base64,iVBORw0KGgo=");
                   GenerateClick; PromptChange "add a hat"; FileChange (Some [notes_txt])]
                  initialWorld)) <= 1.
Proof.
  split; [reflexivity|].
  apply (one_edit_in_flight
           [FileChange (Some [red_png]);
            ReadSettled 0 (Resolved "data:image/png;base64,iVBORw0KGgo=");
            GenerateClick; PromptChange "add a hat"; FileChange (Some [notes_txt])]).
  reflexivity.
Defined.

(** Past the buttons, a second invocation of the handler while the first
    call is pending starts a second call. *)
Example two_edits_in_flight_without_the_button :
  let evs := [FileChange (Some [red_png]);
              ReadSettled 0 (Resolved "data:image/png;base64,iVBORw0KGgo=");
              GenerateClick; GenerateClick] in
  offered evs initialWorld = false /\
  edits_in_flight (pending (run evs initialWorld)) = 2.
Proof. split; reflexivity. Qed.

(** ** What a submit leaves behind *)



(** ** What is on screen *)

Lemma step_error_ok e w :
  Forall task_shape (pending w) -> error_shown_ok (ui w) -> error_shown_ok (ui (step e w)).
Proof.
  intros Hsh Herr.
  destruct e; simpl; unfold user_event;
    try (destruct (mounted w) eqn:Hm; [rewrite dispatch_ui, Hm | exact Herr]).
  - apply handleFileChange_sync, Herr.
  - exact Herr.
  - exact Herr.
  - exact Herr.
  - apply handleTakePhoto_sync, Herr.
  - apply handleGenerateClick_sync, Herr.
  - destruct (nth_error (pending w) i) as [[file k | |]|] eqn:Hi; auto.
    rewrite dispatch_ui. simpl. destruct (mounted w); [|exact Herr].
    rewrite Forall_forall in Hsh. apply (Hsh _ (nth_error_In _ _ Hi) o (ui w)), Herr.
  - destruct (nth_error (pending w) i) as [[| img mime ins k |]|] eqn:Hi; auto.
    rewrite dispatch_ui. simpl. destruct (mounted w); [|exact Herr].
    rewrite Forall_forall in Hsh. apply (Hsh _ (nth_error_In _ _ Hi) o (ui w)), Herr.
  - destruct (nth_error (pending w) i) as [[| |]|] eqn:Hi; auto.
    destruct o as [v|err].
    + unfold on_stream. destruct (videoRef_current (take_task i w)); exact Herr.
    + rewrite dispatch_ui. simpl. destruct (mounted w); [|exact Herr].
      intros m [= <-]. discriminate.
  - destruct (mounted w); [|exact Herr].
    unfold effect_cleanup. destruct (streamRef w); exact Herr.
Qed.

(** No session ever stores an empty error text. *)
Lemma error_ok_reachable evs : error_shown_ok (ui (run evs initialWorld)).
Proof.
  apply (run_invariant
           (fun w => Forall task_shape (pending w) /\ error_shown_ok (ui w))).
  - intros e w [Hsh Herr]. split; [apply step_shapes, Hsh | apply step_error_ok; assumption].
  - split; [constructor | intros m [=]].
Qed.

(** X8. In every session the result panel shows the state as it is: the
    spinner while loading; otherwise the error text whenever an error is
    set, also when an edited image is present; otherwise the edited image
    when there is one; otherwise the placeholder.  The download button of
    the result is enabled exactly when an edited image is present and
    nothing is loading, and then saves that image as sponge-ified.png. *)
Theorem result_panel_shows_state evs :
  let s := ui (run evs initialWorld) in
  resultPanel (render s) =
    (if isLoading s then Spinner
     else match error s, editedImage s with
          | Some m, _ => ErrorText m
          | None, Some u => EditedPreview u
          | None, None => ResultPlaceholder
          end) /\
  editedDownload (render s) =
    match editedImage s with
    | Some u => if isLoading s then None else Some (u, "sponge-ified.png")
    | None => None
    end.
Proof.
  cbv zeta.
  pose proof (error_ok_reachable evs) as Herr.
  destruct (run_ok evs) as [Hed _].
  generalize dependent (ui (run evs initialWorld)). intros s Herr Hed.
  assert (He : forall m, error s = Some m -> truthy (error s) = true).
  { intros m Hm. rewrite Hm. simpl. apply negb_true_iff, String.eqb_neq, (Herr _ Hm). }
  assert (Hu : forall u, editedImage s = Some u -> truthy (editedImage s) = true).
  { intros u Hu. destruct (Hed u Hu) as (o & _ & p & _ & _ & ->). rewrite Hu. reflexivity. }
  unfold render; simpl.
  destruct (isLoading s); simpl; split; try reflexivity.
  - destruct (editedImage s); [rewrite orb_true_r|]; reflexivity.
  - destruct (error s) as [m|] eqn:Hm.
    + rewrite (He m eq_refl). reflexivity.
    + simpl. destruct (editedImage s) as [u|] eqn:Hu'; [rewrite (Hu u eq_refl)|]; reflexivity.
  - destruct (editedImage s) as [u|] eqn:Hu'; [rewrite (Hu u eq_refl)|]; reflexivity.
Qed.

(** ** Which event can change which field *)

(** X9. In every session: only a change of the textarea alters [prompt];
    only a submit click and the settling of an [editImage] call alter
    [isLoading]; only the Camera, Cancel and Snap buttons and the settling
    of a [getUserMedia] request alter [isCameraOpen]; only a finished file
    read and a snap alter [originalImage]; and [editedImage] is altered
    only by a file selection, a snap, a submit click and the settling of
    an [editImage] call. *)
Theorem fields_change_only_by_their_events evs e :
  let w := run evs initialWorld in
  match e with
  | PromptChange _ => True
  | _ => prompt (ui (step e w)) = prompt (ui w)
  end /\
  match e with
  | GenerateClick | EditSettled _ _ => True
  | _ => isLoading (ui (step e w)) = isLoading (ui w)
  end /\
  match e with
  | CameraClick | CancelClick | SnapClick _ _ _ | MediaSettled _ _ => True
  | _ => isCameraOpen (ui (step e w)) = isCameraOpen (ui w)
  end /\
  match e with
  | ReadSettled _ _ | SnapClick _ _ _ => True
  | _ => originalImage (ui (step e w)) = originalImage (ui w)
  end /\
  match e with
  | FileChange _ | SnapClick _ _ _ | GenerateClick | EditSettled _ _ => True
  | _ => editedImage (ui (step e w)) = editedImage (ui w)
  end.
Proof.
  cbv zeta. pose proof (shapes_reachable evs) as Hsh.
  generalize dependent (run evs initialWorld). intros w Hsh.
  rewrite Forall_forall in Hsh.
  destruct e; simpl; unfold user_event.
  - destruct (mounted w) eqn:Hm; [rewrite dispatch_ui, Hm | tauto].
    destruct (handleFileChange_sync files (ui w)) as (H1 & H2 & H3 & H4 & _). tauto.
  - destruct (mounted w) eqn:Hm; [rewrite dispatch_ui, Hm | tauto]. simpl. tauto.
  - destruct (mounted w) eqn:Hm; [rewrite dispatch_ui, Hm | tauto]. simpl. tauto.
  - destruct (mounted w) eqn:Hm; [rewrite dispatch_ui, Hm | tauto]. simpl. tauto.
  - destruct (mounted w) eqn:Hm; [rewrite dispatch_ui, Hm | tauto].
    destruct (handleTakePhoto_sync
                (if videoRef_current w then Some video else None)
                (if canvasRef_current w then Some canvas else None) now (ui w))
      as (_ & H1 & H2 & _). tauto.
  - destruct (mounted w) eqn:Hm; [rewrite dispatch_ui, Hm | tauto].
    destruct (handleGenerateClick_sync (ui w) (ui w)) as (H1 & H2 & H3 & _). tauto.
  - destruct (nth_error (pending w) i) as [[file k | |]|] eqn:Hi; try tauto.
    rewrite dispatch_ui. simpl. destruct (mounted w); [|tauto].
    destruct (Hsh _ (nth_error_In _ _ Hi) o (ui w)) as (_ & H1 & H2 & H3 & H4 & _). tauto.
  - destruct (nth_error (pending w) i) as [[| img mime ins k |]|] eqn:Hi; try tauto.
    rewrite dispatch_ui. simpl. destruct (mounted w); [|tauto].
    destruct (Hsh _ (nth_error_In _ _ Hi) o (ui w)) as (_ & H1 & _ & H3 & H4 & _). tauto.
  - destruct (nth_error (pending w) i) as [[| |]|] eqn:Hi; try tauto.
    destruct o as [v|err].
    + unfold on_stream. destruct (videoRef_current (take_task i w)); simpl; tauto.
    + rewrite dispatch_ui. simpl. destruct (mounted w); simpl; tauto.
  - destruct (mounted w); [|tauto].
    unfold effect_cleanup. destruct (streamRef w); simpl; tauto.
Qed.

(** ** From the selected picture to the preview *)

Lemma append_assoc (a b c : string) : (a ++ b) ++ c = a ++ (b ++ c).
Proof. induction a as [|x a IH]; simpl; [reflexivity | rewrite IH; reflexivity]. Qed.

Lemma contains_app c (a b : string) : contains c (a ++ b) = contains c a || contains c b.
Proof.
  induction a as [|x a IH]; simpl; [reflexivity|].
  rewrite IH, orb_assoc. reflexivity.
Qed.

(** Only the text up to the second comma is kept. *)
Lemma second_segment hdr seg rest :
  contains "," hdr = false -> contains "," seg = false ->
  at_index (split "," (hdr ++ "," ++ seg ++ "," ++ rest)) 1 = Some seg.
Proof.
  intros Hh Hs. simpl.
  rewrite (split_at_first_sep _ _ _ Hh), (split_at_first_sep _ _ _ Hs). reflexivity.
Qed.

Section Preview.

Variable host_read : File.t -> Settled string.
Variable host_edit : option string -> string -> string -> Settled (option string).

(** X10. Upload round trip.  When the read of an image file resolves
    with the base64 data URL of its declared type, data:<type>;base64,
    followed by a payload (neither contains a comma), the preview shows
    exactly that URL, the download button of the original saves exactly
    that URL under the file's name (original.png for a file without a
    name), the upload button reads "Change Image", and submitting is
    enabled unless an edit is loading. *)
Theorem uploaded_image_is_previewed_as_read files file payload s :
  first_file files = Some file ->
  startsWith (File.type file) "image/" = true ->
  contains "," (File.type file) = false ->
  contains "," payload = false ->
  host_read file = Resolved ("data:" ++ File.type file ++ ";base64," ++ payload) ->
  let url := "data:" ++ File.type file ++ ";base64," ++ payload in
  let v := render (final (exec host_read host_edit (handleFileChange files) s)) in
  originalPanel v = OriginalPreview url /\
  originalDownload v =
    Some (url, if String.eqb (File.name file) "" then "original.png" else File.name file) /\
  uploadLabel v = "Change Image" /\
  generateEnabled v = negb (isLoading s).
Proof.
  intros Hf Ht Hc Hp Hr. cbv zeta.
  rewrite (handleFileChange_read_succeeds _ _ _ _ _ _ Hf Ht Hr).
  assert (Hb : at_index (split "," ("data:" ++ File.type file ++ ";base64," ++ payload)) 1
               = Some payload).
  { change (";base64," ++ payload) with (";base64" ++ "," ++ payload).
    rewrite <- (append_assoc (File.type file) ";base64" ("," ++ payload)).
    change ("data:" ++ (File.type file ++ ";base64") ++ "," ++ payload)
      with (("data:" ++ File.type file ++ ";base64") ++ "," ++ payload).
    apply after_first_comma; [|exact Hp].
    change ("data:" ++ File.type file ++ ";base64")
      with ("data:" ++ (File.type file ++ ";base64")).
    rewrite !contains_app, Hc. reflexivity. }
  rewrite Hb. unfold render, data_url_of, download_name; simpl.
  rewrite orb_false_r. repeat split.
Qed.

(** X11. The payload kept from the encoder's URL is the text between its
    first and its second comma: what follows a second comma is dropped,
    and for a URL without any comma the image is stored all the same,
    with an undefined payload that the preview renders as the text
    "undefined". *)
Theorem stored_payload_is_second_comma_segment files file url s :
  first_file files = Some file ->
  startsWith (File.type file) "image/" = true ->
  host_read file = Resolved url ->
  let s' := final (exec host_read host_edit (handleFileChange files) s) in
  (forall hdr seg rest,
     url = hdr ++ "," ++ seg ++ "," ++ rest ->
     contains "," hdr = false -> contains "," seg = false ->
     originalImage s' =
       Some {| base64 := Some seg; mimeType := File.type file; name := File.name file |})
  /\
  (contains "," url = false ->
     originalImage s' =
       Some {| base64 := None; mimeType := File.type file; name := File.name file |} /\
     originalPanel (render s') =
       OriginalPreview ("data:" ++ File.type file ++ ";base64,undefined")).
Proof.
  intros Hf Ht Hr. cbv zeta.
  rewrite (handleFileChange_read_succeeds _ _ _ _ _ _ Hf Ht Hr). split.
  - intros hdr seg rest -> Hh Hs. cbn [originalImage].
    rewrite (second_segment _ _ _ Hh Hs). reflexivity.
  - intros Hc. unfold render, data_url_of; cbn [originalImage originalPanel].
    rewrite (no_comma_no_body _ Hc). split; reflexivity.
Qed.

(** X12. Capture round trip.  When a 2D context is obtained and the
    canvas encodes the frame as data:image/jpeg;base64, followed by a
    comma-free payload, the preview shows exactly that URL and the
    download button of the original saves it as
    webcam-photo-<Date.now()>.jpg. *)
Theorem captured_frame_is_previewed video canvas now payload s :
  getContext2d canvas = true ->
  toDataURL canvas "image/jpeg" (videoWidth video) (videoHeight video) =
    "data:image/jpeg;base64," ++ payload ->
  contains "," payload = false ->
  let v := render (final (exec host_read host_edit
                               (handleTakePhoto (Some video) (Some canvas) now) s)) in
  originalPanel v = OriginalPreview ("data:image/jpeg;base64," ++ payload) /\
  originalDownload v =
    Some ("data:image/jpeg;base64," ++ payload,
          "webcam-photo-" ++ number_toString now ++ ".jpg") /\
  cameraModal v = false.
Proof.
  intros Hctx Hurl Hp. cbv zeta.
  unfold handleTakePhoto. rewrite Hctx, Hurl.
  assert (Hb : at_index (split "," ("data:image/jpeg;base64," ++ payload)) 1 = Some payload).
  { apply (after_first_comma "data:image/jpeg;base64" payload eq_refl Hp). }
  cbn [exec final bind_prog bind Monad_Prog setOriginalImage setEditedImage setError
       setIsCameraOpen apply_action originalImage isCameraOpen].
  rewrite Hb. unfold render, data_url_of, download_name; simpl. repeat split.
Qed.

End Preview.

Lemma uploaded_image_is_previewed_as_read_witness :
  let v := render (final (exec (reads_as "data:image/png;base64,iVBORw0KGgo=")
                               (edit_settles (Resolved None))
                               (handleFileChange (Some [red_png])) shown_state)) in
  originalPanel v = OriginalPreview "data:image/png;base64,iVBORw0KGgo=" /\
  originalDownload v = Some ("data:image/png;base64,iVBORw0KGgo=", "red.png") /\
  uploadLabel v = "Change Image" /\
  generateEnabled v = true.
Proof.
  apply (uploaded_image_is_previewed_as_read
           (reads_as "data:image/png;base64,iVBORw0KGgo=") (edit_settles (Resolved None))
           (Some [red_png]) red_png "iVBORw0KGgo=" shown_state);
    reflexivity.
Defined.

Lemma stored_payload_is_second_comma_segment_witness :
  originalImage
    (final (exec (reads_as "data:image/png;base64,iVBOR,w0KGgo=") (edit_settles (Resolved None))
                 (handleFileChange (Some [red_png])) shown_state)) =
    Some {| base64 := Some "iVBOR"; mimeType := "image/png"; name := "red.png" |}
  /\
  originalPanel
    (render (final (exec (reads_as "iVBORw0KGgo=") (edit_settles (Resolved None))
                         (handleFileChange (Some [red_png])) shown_state))) =
    OriginalPreview "data:image/png;base64,undefined".
Proof.
  split.
  - apply (proj1 (stored_payload_is_second_comma_segment
                    (reads_as "data:image/png;base64,iVBOR,w0KGgo=")
                    (edit_settles (Resolved None)) (Some [red_png]) red_png
                    "data:image/png;base64,iVBOR,w0KGgo=" shown_state
                    eq_refl eq_refl eq_refl)
             "data:image/png;base64" "iVBOR" "w0KGgo="); reflexivity.
  - apply (proj2 (stored_payload_is_second_comma_segment
                    (reads_as "iVBORw0KGgo=")
                    (edit_settles (Resolved None)) (Some [red_png]) red_png
                    "iVBORw0KGgo=" shown_state eq_refl eq_refl eq_refl)).
    reflexivity.
Defined.

Lemma captured_frame_is_previewed_witness :
  let v := render (final (exec read_fails (edit_settles (Resolved None))
                               (handleTakePhoto (Some webcam_frame) (Some jpeg_canvas)
                                                1730600000000)
                               (apply_action (SetIsCameraOpen true) shown_state))) in
  originalPanel v = OriginalPreview "data:image/jpeg;base64,/9j/4AAQSkZJRg==" /\
  originalDownload v =
    Some ("data:image/jpeg;base64,/9j/4AAQSkZJRg==", "webcam-photo-1730600000000.jpg") /\
  cameraModal v = false.
Proof.
  apply (captured_frame_is_previewed read_fails (edit_settles (Resolved None))
           webcam_frame jpeg_canvas 1730600000000 "/9j/4AAQSkZJRg=="
           (apply_action (SetIsCameraOpen true) shown_state));
    reflexivity.
Defined.

(** ** Downloading *)

(** X13. On a page whose body holds only nodes created earlier,
    [handleDownload] never throws, triggers exactly one save, of the
    given URL under the given file name, and leaves the children of the
    body exactly as they were: the link it appends is removed again. *)
Theorem handleDownload_saves_once_and_restores_body dataUrl filename d :
  Forall (fun node => node < created d) (body d) ->
  handleDownload dataUrl filename d =
    Some {| body := body d;
            created := S (created d);
            saves := (saves d ++ [(dataUrl, filename)])%list |}.
Proof.
  intros Hfresh.
  assert (Hnot : ~ In (created d) (body d)).
  { intros Hin. rewrite Forall_forall in Hfresh. specialize (Hfresh _ Hin). lia. }
  unfold handleDownload, createElement, appendChild, click, removeChild; simpl.
  rewrite (notin_remove Nat.eq_dec _ _ Hnot).
  destruct (in_dec Nat.eq_dec (created d) (body d ++ [created d])) as [_ | Hout].
  - rewrite remove_app, (notin_remove Nat.eq_dec _ _ Hnot). simpl.
    destruct (Nat.eq_dec (created d) (created d)); [|congruence].
    rewrite app_nil_r. reflexivity.
  - exfalso. apply Hout, in_or_app. right; left; reflexivity.
Qed.

Lemma handleDownload_saves_once_and_restores_body_witness :
  handleDownload "data:image/png;base64,QUJD" "sponge-ified.png"
                 {| body := [0; 1]; created := 2; saves := [] |} =
    Some {| body := [0; 1]; created := 3;
            saves := [("data:image/png;base64,QUJD", "sponge-ified.png")] |}.
Proof.
  apply (handleDownload_saves_once_and_restores_body
           "data:image/png;base64,QUJD" "sponge-ified.png"
           {| body := [0; 1]; created := 2; saves := [] |}).
  repeat constructor.
Defined.

(** ** Names of captures *)

Lemma number_toString_inj n m : number_toString n = number_toString m -> n = m.
Proof.
  unfold number_toString. intros H.
  assert (Hnn : forall z, Z.to_int z <> Decimal.Pos Decimal.Nil /\
                          Z.to_int z <> Decimal.Neg Decimal.Nil).
  { intros [|p|p]; simpl; split; try discriminate;
      intros [= Hp]; exact (DecimalPos.Unsigned.to_uint_nonnil p Hp). }
  apply DecimalZ.to_int_inj.
  assert (Hs : Some (Z.to_int n) = Some (Z.to_int m)).
  { rewrite <- (NilZero.isi (Z.to_int n)), <- (NilZero.isi (Z.to_int m)) by apply Hnn.
    rewrite H. reflexivity. }
  injection Hs as Hs. exact Hs.
Qed.

Lemma length_append (a b : string) :
  String.length (a ++ b) = String.length a + String.length b.
Proof. induction a as [|x a IH]; simpl; [reflexivity | rewrite IH; reflexivity]. Qed.

Lemma append_inv_tail (a b c : string) : a ++ c = b ++ c -> a = b.
Proof.
  intros H.
  assert (Hlen : String.length a = String.length b).
  { apply (f_equal String.length) in H. rewrite !length_append in H. lia. }
  revert b H Hlen; induction a as [|x a IH]; intros [|y b] H Hlen; simpl in *;
    try discriminate; [reflexivity|].
  injection H as -> H. injection Hlen as Hlen. rewrite (IH b H Hlen). reflexivity.
Qed.

(** X14. Two captures taken at different values of [Date.now()] are
    stored under different names. *)
Theorem captures_at_different_times_have_different_names
    host_read host_edit video1 canvas1 now1 s1 video2 canvas2 now2 s2 img1 img2 :
  getContext2d canvas1 = true ->
  getContext2d canvas2 = true ->
  now1 <> now2 ->
  originalImage (final (exec host_read host_edit
                             (handleTakePhoto (Some video1) (Some canvas1) now1) s1))
    = Some img1 ->
  originalImage (final (exec host_read host_edit
                             (handleTakePhoto (Some video2) (Some canvas2) now2) s2))
    = Some img2 ->
  name img1 <> name img2.
Proof.
  intros Hc1 Hc2 Hne. unfold handleTakePhoto. rewrite Hc1, Hc2.
  cbn [exec final bind_prog bind Monad_Prog setOriginalImage setEditedImage setError
       setIsCameraOpen apply_action originalImage].
  intros [= <-] [= <-]. cbn [name]. intros Heq.
  apply Hne, number_toString_inj.
  change ("webcam-photo-" ++ number_toString now1 ++ ".jpg")
    with ("webcam-photo-" ++ (number_toString now1 ++ ".jpg")) in Heq.
  assert (Hmid : number_toString now1 ++ ".jpg" = number_toString now2 ++ ".jpg").
  { simpl in Heq. congruence. }
  exact (append_inv_tail _ _ _ Hmid).
Qed.

Lemma captures_at_different_times_have_different_names_witness :
  "webcam-photo-1730600000000.jpg" <> "webcam-photo-1730600000001.jpg".
Proof.
  apply (captures_at_different_times_have_different_names
           read_fails (edit_settles (Resolved None))
           webcam_frame jpeg_canvas 1730600000000 shown_state
           webcam_frame jpeg_canvas 1730600000001 initialState
           {| base64 := Some "/9j/4AAQSkZJRg=="; mimeType := "image/jpeg";
              name := "webcam-photo-1730600000000.jpg" |}
           {| base64 := Some "/9j/4AAQSkZJRg=="; mimeType := "image/jpeg";
              name := "webcam-photo-1730600000001.jpg" |});
    try reflexivity.
  discriminate.
Defined.

(** ** A pending edit cannot be cancelled *)

Lemma remove_nth_keeps {A} (l : list A) i j x :
  nth_error l i = Some x -> j <> i -> In x (remove_nth j l).
Proof.
  revert i j; induction l as [|y l IH]; intros [|i] [|j] Hi Hne; simpl in *;
    try discriminate; try congruence.
  - injection Hi as ->. left; reflexivity.
  - exact (nth_error_In _ _ Hi).
  - right. apply (IH i j Hi). congruence.
Qed.

(** X15. No event other than its own settling takes a pending
    [editImage] call away: selecting another file, taking a photo,
    changing the prompt, another submit, closing the camera, other
    promises settling and even unmounting all leave it pending. *)
Theorem pending_edit_is_never_cancelled w i img mime ins k e :
  nth_error (pending w) i = Some (EditTask img mime ins k) ->
  (forall o, e <> EditSettled i o) ->
  In (EditTask img mime ins k) (pending (step e w)).
Proof.
  intros Hi He.
  pose proof (nth_error_In _ _ Hi) as Hin.
  assert (Hdisp : forall p w0, In (EditTask img mime ins k) (pending w0) ->
            In (EditTask img mime ins k) (pending (dispatch p w0))).
  { intros p w0 H0. rewrite dispatch_pending. apply in_or_app. left. exact H0. }
  assert (Htake : forall j, j <> i -> In (EditTask img mime ins k) (pending (take_task j w))).
  { intros j Hj. simpl. exact (remove_nth_keeps _ _ _ _ Hi Hj). }
  destruct e as [files | text | | | video canvas now | | j o | j o | j o |];
    simpl; unfold user_event;
    try (destruct (mounted w); [apply Hdisp|]; exact Hin).
  - destruct (nth_error (pending w) j) as [[file k' | |]|] eqn:Hj; auto.
    apply Hdisp, Htake. intros ->. congruence.
  - destruct (nth_error (pending w) j) as [[| img' mime' ins' k' |]|] eqn:Hj; auto.
    apply Hdisp, Htake. intros ->. exact (He o eq_refl).
  - destruct (nth_error (pending w) j) as [[| |]|] eqn:Hj; auto.
    assert (Hne : j <> i) by (intros ->; congruence).
    destruct o as [v|err].
    + unfold on_stream. destruct (videoRef_current (take_task j w)); exact (Htake j Hne).
    + apply Hdisp, Htake, Hne.
  - destruct (mounted w); [|exact Hin].
    unfold effect_cleanup. destruct (streamRef w); exact Hin.
Qed.

Lemma pending_edit_is_never_cancelled_witness :
  exists img mime ins k,
    nth_error
      (pending (run [FileChange (Some [red_png]);
                     ReadSettled 0 (Resolved "data:image/png;base64,iVBORw0KGgo=");
                     GenerateClick] initialWorld)) 0
      = Some (EditTask img mime ins k) /\
    In (EditTask img mime ins k)
       (pending (step Unmount
                   (run [FileChange (Some [red_png]);
                         ReadSettled 0 (Resolved "data:image/png;base64,iVBORw0KGgo=");
                         GenerateClick] initialWorld))).
Proof.
  do 4 eexists. split; [reflexivity|].
  apply (pending_edit_is_never_cancelled
           (run [FileChange (Some [red_png]);
                 ReadSettled 0 (Resolved "data:image/png;base64,iVBORw0KGgo=");
                 GenerateClick] initialWorld) 0).
  - reflexivity.
  - intros o. discriminate.
Defined.

Lemma loading_until_settled_witness :
  let w := run [FileChange (Some [red_png]);
                ReadSettled 0 (Resolved "data:image/png;base64,iVBORw0KGgo=")] initialWorld in
  exists k,
    isLoading (ui (step GenerateClick w)) = true /\
    pending (step GenerateClick w) =
      (pending w ++ [EditTask (Some "iVBORw0KGgo=") "image/png" initial_prompt k])%list /\
    forall w' i o,
      mounted w' = true ->
      nth_error (pending w') i =
        Some (EditTask (Some "iVBORw0KGgo=") "image/png" initial_prompt k) ->
      isLoading (ui (step (EditSettled i o) w')) = false.
Proof.
  apply (loading_until_settled
           (run [FileChange (Some [red_png]);
                 ReadSettled 0 (Resolved "data:image/png;base64,iVBORw0KGgo=")] initialWorld)
           {| base64 := Some "iVBORw0KGgo="; mimeType := "image/png"; name := "red.png" |}).
  - reflexivity.
  - reflexivity.
  - discriminate.
Defined.
